(** * CCEditor Launcher user script: a shallow embedding

    The development follows [src/cc-editor-portal.user.js].  The script has
    two stateful parts:

    - [DynamicContentLoader], a debouncing detector built from a
      [MutationObserver] and two [setTimeout] timers;
    - [CCEditorLauncher] with its [ChubAdapter], which polls the page and
      appends one button to an insertion target.

    The browser is modelled only as far as the script uses it: a clock, a
    queue of pending one-shot timers, the set of attached observers, the
    console, and a DOM tree with class and descendant selectors. *)

From Stdlib Require Import ZArith Lia Ascii String.
From stdpp Require Import base strings list gmap.

Local Open Scope Z_scope.

(** ** The host: clock, timers, observers, console *)

Module Host.

(** A function value handed to the script by its caller.  Callbacks are
    opaque: invoking one is recorded, and it does not call back into the
    detector. *)
Definition callback := nat.

(** The two arrow functions the detector passes to [setTimeout]:
    [() => this.handleComplete()] and [() => this.handleTimeout()]. *)
Inductive task := QuietTask | TimeoutTask.

(** Timer and observer handles.  [setTimeout] returns an integer greater
    than zero, so a stored handle is always truthy and [null] is the only
    falsy value of the fields that hold one. *)
Definition handle := positive.

Record timer := Timer { tid : handle; due : Z; job : task }.

Inductive effect :=
| CallOnComplete (f : callback)
| CallOnTimeout (f : callback)
| ConsoleWarn (msg : string)
| ConsoleError (msg : string)
| ConsoleLog (msg : string).

(** What looking up the observation target yields:
    [querySelector] throws on a malformed selector, returns [null], or
    returns an element. *)
Inductive lookup := BadSelector | Absent | Present.

Record host := MkHost {
  now : Z;
  fresh : handle;
  timers : list timer;          (* pending, in creation order *)
  observing : list handle;      (* observers attached to a target *)
  trace : list (Z * effect);    (* what happened, oldest first *)
  has_body : bool;              (* document.body is an element *)
  select : string -> lookup     (* document.querySelector *)
}.

Definition with_now (t : Z) (h : host) : host :=
  MkHost t (fresh h) (timers h) (observing h) (trace h) (has_body h) (select h).
Definition with_fresh (p : handle) (h : host) : host :=
  MkHost (now h) p (timers h) (observing h) (trace h) (has_body h) (select h).
Definition with_timers (ts : list timer) (h : host) : host :=
  MkHost (now h) (fresh h) ts (observing h) (trace h) (has_body h) (select h).
Definition with_observing (os : list handle) (h : host) : host :=
  MkHost (now h) (fresh h) (timers h) os (trace h) (has_body h) (select h).
Definition with_trace (tr : list (Z * effect)) (h : host) : host :=
  MkHost (now h) (fresh h) (timers h) (observing h) tr (has_body h) (select h).

Definition emit (e : effect) (h : host) : host :=
  with_trace (trace h ++ [(now h, e)]) h.

(** The delay of [setTimeout] is a Web IDL [long]: the number given is
    converted to a signed 32-bit integer, modulo [2^32]. *)
Definition to_int32 (d : Z) : Z := (d + 2 ^ 31) mod 2 ^ 32 - 2 ^ 31.

(** The time a timer waits: the converted delay, a negative one counting as
    zero.  So a delay from [2^31] to [2^32 - 1] waits no time at all. *)
Definition timeout_delay (d : Z) : Z := Z.max 0 (to_int32 d).

(** [setTimeout(job, delay)] *)
Definition setTimeout (j : task) (delay : Z) (h : host) : handle * host :=
  (fresh h,
   with_fresh (Pos.succ (fresh h))
     (with_timers
        (timers h ++ [Timer (fresh h) (now h + timeout_delay delay) j]) h)).

Definition clearTimeout (i : handle) (h : host) : host :=
  with_timers (List.filter (fun t => negb (Pos.eqb (tid t) i)) (timers h)) h.

(** [new MutationObserver(cb)] *)
Definition newObserver (h : host) : handle * host :=
  (fresh h, with_fresh (Pos.succ (fresh h)) h).

Definition observe (o : handle) (h : host) : host :=
  if existsb (Pos.eqb o) (observing h) then h
  else with_observing (observing h ++ [o]) h.

Definition disconnect (o : handle) (h : host) : host :=
  with_observing (List.filter (fun x => negb (Pos.eqb x o)) (observing h)) h.

Definition body_lookup (h : host) : lookup :=
  if has_body h then Present else Absent.

(** A page at time [t0] with nothing scheduled yet. *)
Definition new_page (t0 : Z) (body : bool) (sel : string -> lookup) : host :=
  MkHost t0 1%positive [] [] [] body sel.

(** The timer that runs next: the least deadline, the older timer on a
    tie. *)
Definition sooner (a b : timer) : timer :=
  if due b <? due a then b else a.

Definition soonest (ts : list timer) : option timer :=
  match ts with
  | [] => None
  | t :: ts' => Some (fold_left sooner ts' t)
  end.

Definition next_due (T : Z) (h : host) : option timer :=
  match soonest (timers h) with
  | Some t => if due t <=? T then Some t else None
  | None => None
  end.

(** The invocations of the caller's callbacks, with their times. *)
Definition is_call (e : Z * effect) : bool :=
  match snd e with
  | CallOnComplete _ | CallOnTimeout _ => true
  | _ => false
  end.

Definition calls (h : host) : list (Z * effect) :=
  List.filter is_call (trace h).

End Host.

(** ** DynamicContentLoader *)

Module Loader.
Import Host.

Record config := Config {
  quietPeriod : Z;
  maxWaitTime : Z;
  targetSelector : option string
}.

(** The constructor's defaults. *)
Definition default_config : config := Config 500 10000 None.

Record loader := MkLoader {
  cfg : config;
  observer : option handle;
  quietTimer : option handle;
  timeoutTimer : option handle;
  isLoading : bool;
  isComplete : bool;
  onComplete : option callback;
  onTimeout : option callback
}.

Definition with_observer (o : option handle) (l : loader) : loader :=
  MkLoader (cfg l) o (quietTimer l) (timeoutTimer l) (isLoading l)
    (isComplete l) (onComplete l) (onTimeout l).
Definition with_quietTimer (q : option handle) (l : loader) : loader :=
  MkLoader (cfg l) (observer l) q (timeoutTimer l) (isLoading l)
    (isComplete l) (onComplete l) (onTimeout l).
Definition with_timeoutTimer (t : option handle) (l : loader) : loader :=
  MkLoader (cfg l) (observer l) (quietTimer l) t (isLoading l)
    (isComplete l) (onComplete l) (onTimeout l).
Definition with_flags (loading complete : bool) (l : loader) : loader :=
  MkLoader (cfg l) (observer l) (quietTimer l) (timeoutTimer l) loading
    complete (onComplete l) (onTimeout l).
Definition with_callbacks (f g : option callback) (l : loader) : loader :=
  MkLoader (cfg l) (observer l) (quietTimer l) (timeoutTimer l)
    (isLoading l) (isComplete l) f g.
Definition with_cfg (c : config) (l : loader) : loader :=
  MkLoader c (observer l) (quietTimer l) (timeoutTimer l)
    (isLoading l) (isComplete l) (onComplete l) (onTimeout l).

(** A new detector whose merged configuration is [c]. *)
Definition create (c : config) : loader :=
  MkLoader c None None None false false None None.

(** The detector together with the host it runs in. *)
Definition world := (loader * host)%type.

Definition on_host (f : host -> host) (w : world) : world := (w.1, f w.2).
Definition on_loader (f : loader -> loader) (w : world) : world := (f w.1, w.2).

(** [cleanup()] *)
Definition cleanup (w : world) : world :=
  let w :=
    match observer w.1 with
    | Some o => on_loader (with_observer None) (on_host (disconnect o) w)
    | None => w
    end in
  let w :=
    match quietTimer w.1 with
    | Some q => on_loader (with_quietTimer None) (on_host (clearTimeout q) w)
    | None => w
    end in
  match timeoutTimer w.1 with
  | Some t => on_loader (with_timeoutTimer None) (on_host (clearTimeout t) w)
  | None => w
  end.

(** [handleComplete()] *)
Definition handleComplete (w : world) : world :=
  if isComplete w.1 then w
  else
    let w := on_loader (with_flags false true) w in
    let w := cleanup w in
    let w :=
      match onComplete w.1 with
      | Some f => on_host (emit (CallOnComplete f)) w
      | None => w
      end in
    on_host (emit (ConsoleLog "DynamicContentLoader: Content loading complete")) w.

(** [handleTimeout()] *)
Definition handleTimeout (w : world) : world :=
  if isComplete w.1 then w
  else
    let w := on_host (emit (ConsoleWarn "DynamicContentLoader: Maximum wait time reached")) w in
    let w := cleanup w in
    match onTimeout w.1 with
    | Some g => on_host (emit (CallOnTimeout g)) w
    | None =>
        match onComplete w.1 with
        | Some f => on_host (emit (CallOnComplete f)) w
        | None => w
        end
    end.

(** [resetQuietTimer()] *)
Definition resetQuietTimer (w : world) : world :=
  let w :=
    match quietTimer w.1 with
    | Some q => on_host (clearTimeout q) w
    | None => w
    end in
  let '(q, h) := setTimeout QuietTask (quietPeriod (cfg w.1)) w.2 in
  (with_quietTimer (Some q) w.1, h).

(** [handleMutation()] *)
Definition handleMutation (w : world) : world :=
  if isComplete w.1 then w else resetQuietTimer w.

Inductive outcome := Returned | Threw.

(** A string is truthy unless it is empty. *)
Definition truthy (s : option string) : option string :=
  match s with
  | Some "" => None
  | _ => s
  end.

(** The element to observe: the configured selector when it is truthy,
    the body otherwise. *)
Definition target (c : config) (h : host) : lookup :=
  match truthy (targetSelector c) with
  | Some sel => select h sel
  | None => body_lookup h
  end.

(** [start(onComplete, onTimeout = null)] *)
Definition start (f g : option callback) (w : world) : world * outcome :=
  if isLoading w.1 then
    (on_host (emit (ConsoleWarn "DynamicContentLoader is already running")) w,
     Returned)
  else
    let w := on_loader (with_callbacks f g) (on_loader (with_flags true false) w) in
    let '(t, h) := setTimeout TimeoutTask (maxWaitTime (cfg w.1)) w.2 in
    let w : world := (with_timeoutTimer (Some t) w.1, h) in
    let '(o, h) := newObserver w.2 in
    let w : world := (with_observer (Some o) w.1, h) in
    match target (cfg w.1) w.2 with
    | BadSelector => (w, Threw)
    | Absent =>
        (handleComplete (on_host (emit (ConsoleError "Target element not found")) w),
         Returned)
    | Present => (resetQuietTimer (on_host (observe o) w), Returned)
    end.

(** [stop()] *)
Definition stop (w : world) : world :=
  if negb (isLoading w.1) then w
  else
    let w := cleanup w in
    let w := on_loader (with_flags false false) w in
    on_host (emit (ConsoleLog "DynamicContentLoader stopped")) w.

(** The options object of the constructor and of [reconfigure]: each key
    may be left out. *)
Record options := Options {
  opt_quietPeriod : option Z;
  opt_maxWaitTime : option Z;
  opt_targetSelector : option (option string)
}.

(** [{ ...config, ...options }] *)
Definition merge (c : config) (o : options) : config :=
  Config (default (quietPeriod c) (opt_quietPeriod o))
    (default (maxWaitTime c) (opt_maxWaitTime o))
    (default (targetSelector c) (opt_targetSelector o)).

(** [new DynamicContentLoader(options)]: the options over the defaults. *)
Definition of_options (o : options) : loader := create (merge default_config o).

(** [reconfigure(newOptions)] *)
Definition reconfigure (o : options) (w : world) : world :=
  if isLoading w.1 then
    on_host (emit (ConsoleError "Cannot reconfigure while loader is running")) w
  else on_loader (with_cfg (merge (cfg w.1) o)) w.

(** [isRunning()] and [hasCompleted()] *)
Definition isRunning (w : world) : bool := isLoading w.1.
Definition hasCompleted (w : world) : bool := isComplete w.1.

(** The detector's state as the two flags encode it. *)
Inductive state := Idle | Observing | Completed.

Definition state_of (w : world) : state :=
  if isLoading w.1 then Observing
  else if isComplete w.1 then Completed
  else Idle.

(** *** The event loop *)

(** A due timer leaves the queue, the clock moves to its deadline, and its
    task runs. *)
Definition run_timer (t : timer) (w : world) : world :=
  let w := on_host (with_now (Z.max (now w.2) (due t))) (on_host (clearTimeout (tid t)) w) in
  match job t with
  | QuietTask => handleComplete w
  | TimeoutTask => handleTimeout w
  end.

Fixpoint run_timers (fuel : nat) (T : Z) (w : world) : world :=
  match fuel with
  | O => w
  | S n =>
      match next_due T w.2 with
      | Some t => run_timers n T (run_timer t w)
      | None => w
      end
  end.

(** Let time pass until [T]: every timer due by then runs, in order. *)
Definition advance (T : Z) (w : world) : world :=
  let w := run_timers (length (timers w.2)) T w in
  on_host (with_now (Z.max (now w.2) T)) w.

(** A batch of mutations reaches the page at time [T]: each attached
    observer runs its callback, which is [handleMutation]. *)
Definition mutation (T : Z) (w : world) : world :=
  let w := advance T w in
  fold_left (fun w _ => handleMutation w) (observing w.2) w.

Definition mutations (Ts : list Z) (w : world) : world :=
  fold_left (fun w T => mutation T w) Ts w.

(** Mutation times that start at or after [t] and leave gaps shorter than
    [gap]: the first within [gap] of [t], each next one within [gap] of
    the one before. *)
Fixpoint spaced (gap t : Z) (ts : list Z) : Prop :=
  match ts with
  | [] => True
  | t' :: ts' => (t <= t' < t + gap) /\ spaced gap t' ts'
  end.

(** A detector created with [c] and started on the host [h]. *)
Definition started (c : config) (f g : option callback) (h : host) : world :=
  (start f g (create c, h)).1.

(** *** States of a run

    The shapes a started detector goes through, written out: [c], [f], [g]
    are its configuration and callbacks, [bd] and [sel] the page, [t0] the
    time of [start]. *)

(** Watching: the timeout timer is handle 1, the observer handle 2, the
    quiet timer [q] was armed at [tq], [fr] is the next free handle and [t]
    the clock. *)
Definition watching (c : config) (f g : option callback) (bd : bool)
    (sel : string -> lookup) (t0 : Z) (q fr : handle) (tq t : Z)
    (tr : list (Z * effect)) : world :=
  (MkLoader c (Some 2%positive) (Some q) (Some 1%positive) true false f g,
   MkHost t fr
     [Timer 1%positive (t0 + maxWaitTime c) TimeoutTask;
      Timer q (tq + quietPeriod c) QuietTask]
     [2%positive] tr bd sel).

(** After the quiet timer has run. *)
Definition settled (c : config) (f g : option callback) (bd : bool)
    (sel : string -> lookup) (fr : handle) (t : Z) (tr : list (Z * effect)) : world :=
  (MkLoader c None None None false true f g, MkHost t fr [] [] tr bd sel).

(** After the absolute timeout has run. *)
Definition expired (c : config) (f g : option callback) (bd : bool)
    (sel : string -> lookup) (fr : handle) (t : Z) (tr : list (Z * effect)) : world :=
  (MkLoader c None None None true false f g, MkHost t fr [] [] tr bd sel).

(** What [handleComplete] adds to the trace at time [t]. *)
Definition complete_effects (f : option callback) (t : Z) : list (Z * effect) :=
  match f with Some f' => [(t, CallOnComplete f')] | None => [] end
  ++ [(t, ConsoleLog "DynamicContentLoader: Content loading complete")].

(** The callback [handleTimeout] picks at time [t]. *)
Definition terminal (f g : option callback) (t : Z) : list (Z * effect) :=
  match g, f with
  | Some g', _ => [(t, CallOnTimeout g')]
  | None, Some f' => [(t, CallOnComplete f')]
  | None, None => []
  end.

(** What [handleTimeout] adds to the trace at time [t]. *)
Definition timeout_effects (f g : option callback) (t : Z) : list (Z * effect) :=
  (t, ConsoleWarn "DynamicContentLoader: Maximum wait time reached") :: terminal f g t.

(** Mutations every 100 ms, the first at 0: [n] of them. *)
Definition busy (n : nat) : list Z := map (fun k => 100 * Z.of_nat k) (seq 0 n).

(** The default detector, started at 0 on a page with a body, its timeout
    reached under continuous mutations. *)
Definition timed_out (f g : option callback) : world :=
  advance 10000
    (mutations (busy 100)
       (started default_config f g (new_page 0 true (fun _ => Absent)))).

(** The default detector, started at 0 on a page with a body that then stays
    still: the quiet timer has run at 500. *)
Definition quiesced : world :=
  advance 500 (started default_config (Some 1%nat) None (new_page 0 true (fun _ => Absent))).

(** Two worlds that differ at most in what the console has logged. *)
Definition same_run (w w' : world) : Prop :=
  w'.1 = w.1 /\ now w'.2 = now w.2 /\ fresh w'.2 = fresh w.2 /\
  timers w'.2 = timers w.2 /\ observing w'.2 = observing w.2 /\
  has_body w'.2 = has_body w.2 /\ select w'.2 = select w.2 /\
  calls w'.2 = calls w.2.

End Loader.

(** ** The DOM: elements, class lists, selectors *)

Module Dom.

(** An element with what the script reads or writes: its tag, its
    [className], its text, its inline style, the URL its click handler
    captured, and its children. *)
#[local] Unset Elimination Schemes.
Inductive node :=
| Node (tag : string) (className : string) (textContent : string)
       (style : list (string * string)) (onclick : option string)
       (children : list node).
#[local] Set Elimination Schemes.

Definition tag (n : node) : string :=
  match n with Node t _ _ _ _ _ => t end.
Definition className (n : node) : string :=
  match n with Node _ c _ _ _ _ => c end.
Definition children (n : node) : list node :=
  match n with Node _ _ _ _ _ ks => ks end.
Definition with_children (ks : list node) (n : node) : node :=
  match n with Node t c x s o _ => Node t c x s o ks end.

(** [target.appendChild(child)] *)
Definition appendChild (child : node) (n : node) : node :=
  with_children (children n ++ [child]) n.

Definition is_space (a : ascii) : bool :=
  let n := nat_of_ascii a in
  (n =? 32)%nat || (n =? 9)%nat || (n =? 10)%nat || (n =? 12)%nat || (n =? 13)%nat.

(** Split on white space, as [classList] does with [className]. *)
Fixpoint tokens_from (cur : string) (s : string) : list string :=
  match s with
  | EmptyString => if String.eqb cur "" then [] else [cur]
  | String a s' =>
      if is_space a then
        (if String.eqb cur "" then tokens_from "" s'
         else cur :: tokens_from "" s')
      else tokens_from (cur +:+ String a "") s'
  end.

Definition tokens (s : string) : list string := tokens_from "" s.

Definition has_class (c : string) (n : node) : bool :=
  existsb (String.eqb c) (tokens (className n)).

(** The selectors the script writes: a class selector [.c], a type
    selector [t], and chains of them joined by the descendant
    combinator. *)
Inductive simple := ByClass (c : string) | ByTag (t : string).

Definition selector := list simple.

Definition css_simple (tok : string) : simple :=
  match tok with
  | String "." c => ByClass c
  | _ => ByTag tok
  end.

Definition css (s : string) : selector := map css_simple (tokens s).

Definition matches_simple (s : simple) (n : node) : bool :=
  match s with
  | ByClass c => has_class c n
  | ByTag t => String.eqb t (tag n)
  end.

(** The outer part of a chain against the ancestors, nearest first: each
    selector takes the nearest ancestor that matches it. *)
Fixpoint matches_chain (outer : list simple) (anc : list node) : bool :=
  match outer with
  | [] => true
  | s :: outer' =>
      (fix climb (anc : list node) : bool :=
         match anc with
         | [] => false
         | a :: anc' =>
             if matches_simple s a then matches_chain outer' anc'
             else climb anc'
         end) anc
  end.

Definition matches (sel : selector) (anc : list node) (n : node) : bool :=
  match rev sel with
  | [] => false
  | s :: outer => matches_simple s n && matches_chain outer anc
  end.

(** A position below a root: child indices, outermost first. *)
Definition path := list nat.

(** The first match in document order, the root included. *)
Fixpoint find_in (sel : selector) (anc : list node) (n : node) : option path :=
  if matches sel anc n then Some []
  else
    (fix scan (i : nat) (ks : list node) : option path :=
       match ks with
       | [] => None
       | k :: ks' =>
           match find_in sel (n :: anc) k with
           | Some p => Some (i :: p)
           | None => scan (S i) ks'
           end
       end) O (children n).

(** The same search over a list of siblings, the first at index [i]. *)
Fixpoint find_among (sel : selector) (anc : list node) (i : nat)
    (ks : list node) : option path :=
  match ks with
  | [] => None
  | k :: ks' =>
      match find_in sel anc k with
      | Some p => Some (i :: p)
      | None => find_among sel anc (S i) ks'
      end
  end.

(** [document.querySelector(s)]; the document is given by its body. *)
Definition document_querySelector (s : string) (body : node) : option path :=
  find_in (css s) [] body.

(** [e.querySelector(s)]: only descendants of [e] are candidates. *)
Definition querySelector (s : string) (e : node) : option path :=
  find_among (css s) [e] O (children e).

Fixpoint at_path (p : path) (n : node) : option node :=
  match p with
  | [] => Some n
  | i :: p' =>
      match children n !! i with
      | Some k => at_path p' k
      | None => None
      end
  end.

(** Apply [f] to the element at [p], in place. *)
Fixpoint update_at (p : path) (f : node -> node) (n : node) : node :=
  match p with
  | [] => f n
  | i :: p' =>
      match children n !! i with
      | Some k => with_children (<[i := update_at p' f k]> (children n)) n
      | None => n
      end
  end.

(** Some element of the tree, the root included, carries class [c]. *)
Fixpoint mentions (c : string) (n : node) : bool :=
  has_class c n || existsb (mentions c) (children n).

(** Selectors read an element's tag and class only. *)
Definition same_label (a b : node) : Prop :=
  tag a = tag b /\ className a = className b.

(** An edit that keeps the element's label and only appends children. *)
Definition grows (f : node -> node) : Prop :=
  forall t, same_label (f t) t /\ exists extra, children (f t) = children t ++ extra.

(** An element with a tag, a class attribute and children, nothing else. *)
Definition el (t c : string) (ks : list node) : node := Node t c "" [] None ks.

End Dom.

(** ** Regular expressions with the global flag *)

Module Regex.

(** The constructs of the one pattern the script has: literal text, a
    greedy [+] over a character class, a capturing group, and sequence. *)
Inductive regex :=
| Str (l : list ascii)
| Plus (cls : ascii -> bool)
| Group (r : regex)
| Seq (r1 r2 : regex).

Definition captures := list (list ascii).
Definition cont := list ascii -> captures -> option (list ascii * captures).

Fixpoint strip_prefix (l s : list ascii) : option (list ascii) :=
  match l, s with
  | [], _ => Some s
  | c :: l', a :: s' => if Ascii.eqb a c then strip_prefix l' s' else None
  | _ :: _, [] => None
  end.

(** After the first character of [cls+]: take as many more as possible,
    and give them back one at a time while the rest of the pattern
    fails. *)
Fixpoint plus_loop (cls : ascii -> bool) (s : list ascii) (caps : captures)
    (k : cont) : option (list ascii * captures) :=
  match s with
  | a :: s' =>
      if cls a then
        match plus_loop cls s' caps k with
        | Some r => Some r
        | None => k s caps
        end
      else k s caps
  | [] => k [] caps
  end.

(** Backtracking matcher: [k] is the rest of the pattern.  A group records
    what it consumed when it closes; the groups of the script's pattern are
    not nested, so this is their left-to-right numbering. *)
Fixpoint run (r : regex) (s : list ascii) (caps : captures) (k : cont)
    : option (list ascii * captures) :=
  match r with
  | Str l =>
      match strip_prefix l s with
      | Some s' => k s' caps
      | None => None
      end
  | Plus cls =>
      match s with
      | a :: s' => if cls a then plus_loop cls s' caps k else None
      | [] => None
      end
  | Group r' =>
      run r' s caps
        (fun s' caps' => k s' (caps' ++ [firstn (length s - length s') s]))
  | Seq r1 r2 => run r1 s caps (fun s' caps' => run r2 s' caps' k)
  end.

(** A match that starts exactly at the head of [s]: what is left of [s]
    and the captures. *)
Definition match_at (r : regex) (s : list ascii) : option (list ascii * captures) :=
  run r s [] (fun s' caps => Some (s', caps)).

(** The leftmost match at or after the head of [s], which is at index
    [i]: its start index, what is left, and the captures. *)
Fixpoint search (r : regex) (i : nat) (s : list ascii)
    : option (nat * list ascii * captures) :=
  match match_at r s with
  | Some (rest, caps) => Some (i, rest, caps)
  | None =>
      match s with
      | [] => None
      | _ :: s' => search r (S i) s'
      end
  end.

(** [r.exec(str)] for a regular expression with the [g] flag and the given
    [lastIndex]: the captures (without the whole match) and the new
    [lastIndex]. *)
Definition exec (r : regex) (str : list ascii) (lastIndex : nat)
    : option captures * nat :=
  if (length str <? lastIndex)%nat then (None, O)
  else
    match search r lastIndex (skipn lastIndex str) with
    | Some (_, rest, caps) => (Some caps, (length str - length rest)%nat)
    | None => (None, O)
    end.

(** [r.test(str)] *)
Definition test (r : regex) (str : list ascii) (lastIndex : nat) : bool * nat :=
  let '(m, li) := exec r str lastIndex in
  (match m with Some _ => true | None => false end, li).

End Regex.

(** ** ChubAdapter *)

Module Chub.
Import Regex.

Definition between (lo hi : nat) (a : ascii) : bool :=
  let n := nat_of_ascii a in (lo <=? n)%nat && (n <=? hi)%nat.

(** The class [[\w_\-]]. *)
Definition word (a : ascii) : bool :=
  between 97 122 a || between 65 90 a || between 48 57 a
  || Ascii.eqb a "_" || Ascii.eqb a "-".

(** [/\/characters\/([\w_\-]+)\/([\w_\-]+)/g] *)
Definition pattern : regex :=
  Seq (Str (list_ascii_of_string "/characters/"))
    (Seq (Group (Plus word))
       (Seq (Str (list_ascii_of_string "/")) (Group (Plus word)))).

Record location := Location { hostname : string; pathname : string }.

(** The adapter's only state is [pattern.lastIndex]. *)
Definition adapter := nat.

Definition fresh_adapter : adapter := O.

(** [match()]: the pattern is tested only on chub.ai. *)
Definition match_ (loc : location) (a : adapter) : bool * adapter :=
  if String.eqb (hostname loc) "chub.ai"
  then test pattern (list_ascii_of_string (pathname loc)) a
  else (false, a).

(** An array element read by destructuring is truthy when it exists and
    is not the empty string. *)
Definition truthy_at (i : nat) (caps : captures) : option string :=
  match nth_error caps i with
  | Some [] => None
  | Some l => Some (string_of_list_ascii l)
  | None => None
  end.

Definition avatar_url (uid cid : string) : string :=
  "https://avatars.charhub.io/avatars/" +:+ uid +:+ "/" +:+ cid
  +:+ "/chara_card_v2.png".

(** [getCardImageUrl()] *)
Definition getCardImageUrl (loc : location) (a : adapter) : option string * adapter :=
  let '(m, a') := exec pattern (list_ascii_of_string (pathname loc)) a in
  let caps := match m with Some caps => caps | None => [] end in
  match truthy_at 0 caps, truthy_at 1 caps with
  | Some uid, Some cid => (Some (avatar_url uid cid), a')
  | _, _ => (None, a')
  end.

(** [getInsertTarget()]: the parent of the first [main h3].  The document
    is given by its body, so a match on the root itself has no parent in
    the tree. *)
Definition getInsertTarget (body : Dom.node) : option Dom.path :=
  match Dom.document_querySelector "main h3" body with
  | Some (i :: p) => Some (removelast (i :: p))
  | _ => None
  end.

(** The pattern has no match in [s] at any index from [i] on. *)
Definition no_match_from (i : nat) (s : list ascii) : Prop :=
  forall j, (i <= j)%nat -> match_at pattern (skipn j s) = None.

End Chub.

(** ** CCEditorLauncher *)

Module Launcher.
Import Dom.

(** [CONFIG]: reading a key it does not have gives [undefined]. *)
Definition CONFIG : gmap string string :=
  {[ "ccEditorBaseUrl" := "https://lenml.github.io/CCEditor/";
     "buttonText" := "📝Edit in CCEditor";
     "buttonClass" := "cceditor-jump-btn" ]}.

(** A property value inside a template literal. *)
Definition interpolate (v : option string) : string :=
  match v with
  | Some s => s
  | None => "undefined"
  end.

Definition class_selector (key : string) : string :=
  "." +:+ interpolate (CONFIG !! key).

(** [DomUtil.createButton(text)] *)
Definition createButton (text : option string) : node :=
  Node "button" (interpolate (CONFIG !! "buttonClass")) (interpolate text)
    [("padding", "6px 10px"); ("marginLeft", "8px"); ("fontSize", "12px");
     ("cursor", "pointer"); ("borderRadius", "0px"); ("border", "0px");
     ("background", "inherit"); ("color", "inherit");
     ("textDecoration", "underline")]
    None [].

Definition with_onclick (url : string) (n : node) : node :=
  match n with Node t c x s _ ks => Node t c x s (Some url) ks end.

(** The button [injectButton] builds: created with the configured text,
    its click handler closed over [imgUrl]. *)
Definition btn (imgUrl : string) : node :=
  with_onclick imgUrl (createButton (CONFIG !! "buttonText")).

(** [injectButton(target, imgUrl)], on the target element. *)
Definition injectButton (imgUrl : string) (target : node) : node :=
  match querySelector (class_selector "buttonClass") target with
  | Some _ => target
  | None => appendChild (btn imgUrl) target
  end.

(** The [injected] getter. *)
Definition injected (body : node) : bool :=
  match querySelector (class_selector "injectClass") body with
  | Some _ => true
  | None => false
  end.

(** The page as the launcher sees it: where it is, the document, and the
    adapter's regular-expression state. *)
Record page := Page {
  loc : Chub.location;
  body : node;
  chub : Chub.adapter
}.

(** The callback [fire] hands to [waitForDom]: one locate-and-inject
    pass. *)
Definition attempt (pg : page) : bool * page :=
  if injected (body pg) then (false, pg)
  else
    let target := Chub.getInsertTarget (body pg) in
    let '(imgUrl, a) := Chub.getCardImageUrl (loc pg) (chub pg) in
    match target, imgUrl with
    | Some p, Some url =>
        (true, Page (loc pg) (update_at p (injectButton url) (body pg)) a)
    | _, _ => (false, Page (loc pg) (body pg) a)
    end.

(** *** waitForDom *)

Section WaitForDom.
Context {St : Type}.
Variable cb : St -> bool * St.

(** The closure state of one [waitForDom] call.  [attempts] counts the
    executions of [cb]; the script does not keep it. *)
Record waiter := Waiter {
  is_done : bool;
  interval_active : bool;
  observer_connected : bool;
  attempts : nat
}.

(** [cbs]: set the flag, clear the interval, disconnect the observer. *)
Definition cbs : list (waiter -> waiter) :=
  [ (fun w => Waiter true (interval_active w) (observer_connected w) (attempts w));
    (fun w => Waiter (is_done w) false (observer_connected w) (attempts w));
    (fun w => Waiter (is_done w) (interval_active w) false (attempts w)) ].

(** [done]: [cbs.forEach((cb) => cb())] *)
Definition done (w : waiter) : waiter := fold_left (fun w c => c w) cbs w.

(** What [run_cb] returns: nothing, or the function [done] itself. *)
Inductive returned := Undefined | TheFunctionDone.

(** [run_cb]: on success it returns [done]; it does not call it. *)
Definition run_cb (st : St * waiter) : returned * (St * waiter) :=
  let '(s, w) := st in
  if is_done w then (Undefined, st)
  else
    let '(ok, s') := cb s in
    let w' := Waiter (is_done w) (interval_active w) (observer_connected w)
                (S (attempts w)) in
    if ok then (TheFunctionDone, (s', w')) else (Undefined, (s', w')).

(** [waitForDom(cb)]: start the interval and the observer, then try
    once. *)
Definition waitForDom (s : St) : St * waiter :=
  (run_cb (s, Waiter false true true O)).2.

(** What happens afterwards: the 500 ms interval fires, or the observer
    reports a mutation.  The return value of [run_cb] goes to the host,
    which drops it. *)
Inductive signal := Tick | Mutated.

Definition deliver (st : St * waiter) (e : signal) : St * waiter :=
  match e with
  | Tick => if interval_active st.2 then (run_cb st).2 else st
  | Mutated => if observer_connected st.2 then (run_cb st).2 else st
  end.

Definition deliveries (es : list signal) (st : St * waiter) : St * waiter :=
  fold_left deliver es st.

End WaitForDom.

(** [fire()]: pick the adapter whose [match()] holds, then poll. *)
Definition fire (pg : page) : page * option waiter :=
  let '(ok, a) := Chub.match_ (loc pg) (chub pg) in
  let pg' := Page (loc pg) (body pg) a in
  if ok then
    let '(pg'', w) := waitForDom attempt pg' in (pg'', Some w)
  else (pg', None).

(** The target already holds a button, as [injectButton] checks it. *)
Definition has_button (t : node) : bool :=
  match querySelector (class_selector "buttonClass") t with
  | Some _ => true
  | None => false
  end.

(** The successive calls of [injectButton] on one target. *)
Definition inject_all (urls : list string) (target : node) : node :=
  fold_left (fun t u => injectButton u t) urls target.

(** Polls in a row on one document, each at whatever location and
    regular-expression state the navigation has left; the document changes
    in between only through the polls themselves. *)
Definition polls (visits : list (Chub.location * Chub.adapter)) (b : node) : node :=
  fold_left (fun b v => body (attempt (Page v.1 b v.2)).2) visits b.

(** A small character page: the first [main h3] sits in a header [div]. *)
Definition sample : node :=
  el "body" ""
    [el "div" "app"
       [el "main" ""
          [el "div" "hdr title" [el "h3" "" []; el "span" "x" []];
           el "h3" "" []]]].

End Launcher.

(** ** Runs of the detector's interface *)

Module Script.
Import Host Loader.

(** What can happen to a detector: a call of its interface, a batch of
    mutations on the page at time [T], or time passing until [T]. *)
Inductive op :=
| Start (f g : option callback)
| Stop
| Reconfigure (o : options)
| Mutation (T : Z)
| Wait (T : Z).

Definition step (w : world) (o : op) : world :=
  match o with
  | Start f g => (start f g w).1
  | Stop => stop w
  | Reconfigure o => reconfigure o w
  | Mutation T => mutation T w
  | Wait T => advance T w
  end.

Definition play (ops : list op) (w : world) : world := fold_left step ops w.

(** The detector holds nothing: no field set, no timer pending, no observer
    attached. *)
Definition released (w : world) : Prop :=
  observer w.1 = None /\ quietTimer w.1 = None /\ timeoutTimer w.1 = None /\
  timers w.2 = [] /\ observing w.2 = [].

(** [start] threw at the selector: the timeout timer [a] is pending, the
    observer [o] exists and is attached to nothing. *)
Definition armed_only (w : world) : Prop :=
  exists a o d,
    observer w.1 = Some o /\ quietTimer w.1 = None /\ timeoutTimer w.1 = Some a /\
    timers w.2 = [Timer a d TimeoutTask] /\ observing w.2 = [] /\
    (a < fresh w.2)%positive.

(** Observing: the timeout timer [a] and the quiet timer [q] are pending,
    in this order, and the observer [o] is attached. *)
Definition armed (w : world) : Prop :=
  exists a o q d1 d2,
    observer w.1 = Some o /\ quietTimer w.1 = Some q /\ timeoutTimer w.1 = Some a /\
    timers w.2 = [Timer a d1 TimeoutTask; Timer q d2 QuietTask] /\
    observing w.2 = [o] /\
    a <> q /\ (a < fresh w.2)%positive /\ (q < fresh w.2)%positive.

(** The detector owns what the host holds for it: when it is not running it
    holds nothing; when it is running it has not completed, and it holds
    nothing (after a timeout), or only its timeout timer, or both timers
    and the attached observer. *)
Definition owned (w : world) : Prop :=
  (isLoading w.1 = false /\ released w) \/
  (isLoading w.1 = true /\ isComplete w.1 = false /\
   (released w \/ armed_only w \/ armed w)).

(** Times that do not go back, the first at or after [t]. *)
Fixpoint ascending (t : Z) (ts : list Z) : Prop :=
  match ts with
  | [] => True
  | t' :: ts' => t <= t' /\ ascending t' ts'
  end.

(** The detector after [start] has thrown at a malformed selector, [t] being
    the clock. *)
Definition thrown (c : config) (f g : option callback) (bd : bool)
    (sel : string -> lookup) (t0 t : Z) : world :=
  (MkLoader c (Some 2%positive) None (Some 1%positive) true false f g,
   MkHost t 3%positive [Timer 1%positive (t0 + maxWaitTime c) TimeoutTask]
     [] [] bd sel).

(** Every pending timer and every attached observer is one the fields
    name. *)
Definition covered (w : world) : Prop :=
  (forall t, In t (timers w.2) ->
     quietTimer w.1 = Some (tid t) \/ timeoutTimer w.1 = Some (tid t)) /\
  (forall o, In o (observing w.2) -> observer w.1 = Some o).

End Script.

(** ** The editor URL *)

Module Editor.
Import Dom Launcher.

Definition in_range (lo hi : nat) (a : ascii) : bool :=
  let n := nat_of_ascii a in (lo <=? n)%nat && (n <=? hi)%nat.

Definition alphanumeric (a : ascii) : bool :=
  in_range 97 122 a || in_range 65 90 a || in_range 48 57 a.

(** The characters [encodeURIComponent] leaves as they are: letters,
    digits and [- _ . ! ~ * ' ( )]. *)
Definition unreserved (a : ascii) : bool :=
  alphanumeric a
  || existsb (Ascii.eqb a) (list_ascii_of_string "-_.!~*'()").

Definition hex_digit (n : nat) : ascii :=
  if (n <? 10)%nat then ascii_of_nat (48 + n) else ascii_of_nat (55 + n).

(** One byte of the UTF-8 form of the text: kept, or written [%XX] with
    upper-case digits. *)
Definition encode_byte (a : ascii) : string :=
  if unreserved a then String a ""
  else
    let n := nat_of_ascii a in
    String "%" (String (hex_digit (n / 16)) (String (hex_digit (n mod 16)) "")).

(** [encodeURIComponent(s)], the string given by the bytes of its UTF-8
    form (so it has no lone surrogate, on which the function throws). *)
Fixpoint encodeURIComponent (s : string) : string :=
  match s with
  | EmptyString => ""
  | String a s' => encode_byte a +:+ encodeURIComponent s'
  end.

(** [buildEditorUrl(imageUrl)] *)
Definition buildEditorUrl (imageUrl : string) : string :=
  interpolate (CONFIG !! "ccEditorBaseUrl") +:+ "?load_url="
  +:+ encodeURIComponent imageUrl.

(** A click on an element: the URL its handler opens in a new tab, if it
    has the handler [injectButton] installs. *)
Definition click (n : node) : option string :=
  match n with
  | Node _ _ _ _ (Some imgUrl) _ => Some (buildEditorUrl imgUrl)
  | Node _ _ _ _ None _ => None
  end.

(** Every character of [s] satisfies [p]. *)
Fixpoint all_chars (p : ascii -> bool) (s : string) : bool :=
  match s with
  | EmptyString => true
  | String a s' => p a && all_chars p s'
  end.

(** A path segment the adapter's pattern captures whole: not empty, made
    of [[\w_\-]] characters. *)
Definition segment (s : string) : bool :=
  negb (String.eqb s "") && all_chars Chub.word s.

(** What may follow the second segment in a pathname: nothing, or a
    character that ends the segment. *)
Definition ends_segment (r : string) : bool :=
  match r with
  | EmptyString => true
  | String a _ => negb (Chub.word a)
  end.

End Editor.

(** * Properties of the detector *)

Import Host Loader.

Ltac unfold_host :=
  cbv [on_host on_loader with_now with_fresh with_timers with_observing
       with_trace emit setTimeout clearTimeout newObserver observe disconnect
       with_observer with_quietTimer with_timeoutTimer with_flags
       with_callbacks create new_page body_lookup fst snd
       now fresh timers observing trace has_body select
       cfg observer quietTimer timeoutTimer isLoading isComplete onComplete
       onTimeout].

Ltac run_model :=
  repeat (progress
            (unfold_host;
             cbn -[target timeout_delay Z.add Z.max Z.ltb Z.leb Pos.eqb Pos.succ])).

(** Within the range of a signed 32-bit integer the timer waits the delay
    it is given. *)
Lemma timeout_delay_in_range (d : Z) : 0 <= d < 2 ^ 31 -> timeout_delay d = d.
Proof.
  intros H. unfold timeout_delay, to_int32.
  rewrite Z.mod_small by lia. lia.
Qed.

Lemma timeout_delay_nonneg (d : Z) : 0 <= timeout_delay d.
Proof. unfold timeout_delay. lia. Qed.

(** From [2^31] up to [2^32 - 1] the converted delay is negative and the
    timer is due at once. *)
Lemma timeout_delay_wraps (d : Z) : 2 ^ 31 <= d < 2 ^ 32 -> timeout_delay d = 0.
Proof.
  intros H. unfold timeout_delay, to_int32.
  replace (d + 2 ^ 31) with (d - 2 ^ 31 + 1 * 2 ^ 32) by lia.
  rewrite Z.mod_add by lia. rewrite Z.mod_small by lia. lia.
Qed.

(** A detector with [maxWaitTime] [2^31] times out in the turn after
    [start], before any quiet period. *)
Example start_with_wrapped_deadline :
  calls (advance 0 (started (Config 200 2147483648 None) (Some 1%nat) (Some 2%nat)
                      (new_page 0 true (fun _ => Absent)))).2
  = [(0, CallOnTimeout 2%nat)].
Proof. vm_compute. reflexivity. Qed.

(** Handle 1 is the timeout timer; the quiet timer [q] is a later one. *)
Ltac settle_ids q :=
  let E1 := fresh "E" in
  let E2 := fresh "E" in
  assert (E1 : (1 =? q)%positive = false) by (apply Pos.eqb_neq; lia);
  assert (E2 : (q =? 1)%positive = false) by (apply Pos.eqb_neq; lia);
  run_model; rewrite ?Pos.eqb_refl, ?E1, ?E2; run_model;
  rewrite ?Pos.eqb_refl, ?E1, ?E2; run_model;
  rewrite ?timeout_delay_in_range by lia; rewrite ?Z.max_r by lia.

Ltac split_order :=
  repeat match goal with
    | |- context [?a <? ?b] => destruct (Z.ltb_spec a b); cbn [due] in *; try lia
    | |- context [?a <=? ?b] => destruct (Z.leb_spec a b); cbn [due] in *; try lia
    end.

Lemma run_timers_idle n T w : next_due T w.2 = None -> run_timers n T w = w.
Proof. intros H. destruct n; cbn; [reflexivity | now rewrite H]. Qed.

Lemma mutations_cons a ts (w : world) :
  mutations (a :: ts) w = mutations ts (mutation a w).
Proof. reflexivity. Qed.

Lemma last_cons (a t : Z) ts : List.last (a :: ts) t = List.last ts a.
Proof.
  revert a t. induction ts as [|b ts IH]; intros a t; [reflexivity|].
  change (List.last (a :: b :: ts) t) with (List.last (b :: ts) t).
  now rewrite (IH b t), (IH b a).
Qed.

Lemma spaced_last gap t ts : spaced gap t ts -> t <= List.last ts t.
Proof.
  revert t. induction ts as [|a ts IH]; intros t H; [cbn; lia|].
  destruct H as [H1 H2]. specialize (IH a H2). rewrite last_cons. lia.
Qed.

Section Timeline.
Variables (c : config) (f g : option callback).
Variables (bd : bool) (sel : string -> lookup) (t0 : Z).
Hypothesis Hqp : 0 <= quietPeriod c < 2 ^ 31.
Hypothesis Hmw : 0 <= maxWaitTime c < 2 ^ 31.
Hypothesis Htarget : target c (new_page t0 bd sel) = Present.

Local Abbreviation Watching := (watching c f g bd sel t0).
Local Abbreviation Settled := (settled c f g bd sel).
Local Abbreviation Expired := (expired c f g bd sel).

Lemma started_watching :
  started c f g (new_page t0 bd sel) = Watching 3%positive 4%positive t0 t0 [].
Proof.
  unfold started, start. run_model.
  change (target c _) with (target c (new_page t0 bd sel)). rewrite Htarget.
  run_model. unfold watching. rewrite !timeout_delay_in_range by lia. reflexivity.
Qed.

Lemma next_due_watching q fr tq t tr T :
  next_due T (Watching q fr tq t tr).2
  = if tq + quietPeriod c <? t0 + maxWaitTime c
    then (if tq + quietPeriod c <=? T
          then Some (Timer q (tq + quietPeriod c) QuietTask) else None)
    else (if t0 + maxWaitTime c <=? T
          then Some (Timer 1%positive (t0 + maxWaitTime c) TimeoutTask) else None).
Proof.
  unfold next_due, soonest, sooner, watching. cbn [snd timers fold_left due].
  destruct (_ <? _); reflexivity.
Qed.

Lemma run_timer_quiet q fr tq t tr :
  (1 < q)%positive -> t <= tq + quietPeriod c ->
  run_timer (Timer q (tq + quietPeriod c) QuietTask) (Watching q fr tq t tr)
  = Settled fr (tq + quietPeriod c)
      (tr ++ complete_effects f (tq + quietPeriod c)).
Proof.
  intros Hq Ht. unfold run_timer, watching. cbn [job tid due].
  unfold handleComplete, cleanup.
  settle_ids q. unfold settled, complete_effects.
  destruct f; run_model; rewrite <- ?app_assoc; reflexivity.
Qed.

Lemma run_timer_timeout q fr tq t tr :
  (1 < q)%positive -> t <= t0 + maxWaitTime c ->
  run_timer (Timer 1%positive (t0 + maxWaitTime c) TimeoutTask) (Watching q fr tq t tr)
  = Expired fr (t0 + maxWaitTime c)
      (tr ++ timeout_effects f g (t0 + maxWaitTime c)).
Proof.
  intros Hq Ht. unfold run_timer, watching. cbn [job tid due].
  unfold handleTimeout, cleanup.
  settle_ids q. unfold expired, timeout_effects, terminal.
  destruct g, f; run_model; rewrite <- ?app_assoc; reflexivity.
Qed.

(** Nothing is due: time passes and the detector keeps watching. *)
Lemma advance_watching q fr tq t tr T :
  t <= T -> T < tq + quietPeriod c -> T < t0 + maxWaitTime c ->
  advance T (Watching q fr tq t tr) = Watching q fr tq T tr.
Proof.
  intros H1 H2 H3. unfold advance. rewrite run_timers_idle.
  - unfold watching. run_model. now rewrite Z.max_r by lia.
  - rewrite next_due_watching. split_order; reflexivity.
Qed.

(** A mutation before either deadline re-arms the quiet timer. *)
Lemma mutation_watching q fr tq t tr T :
  (1 < q)%positive -> (q < fr)%positive ->
  t <= T -> T < tq + quietPeriod c -> T < t0 + maxWaitTime c ->
  mutation T (Watching q fr tq t tr) = Watching fr (Pos.succ fr) T T tr.
Proof.
  intros Hq Hfr H1 H2 H3. unfold mutation. rewrite advance_watching by lia.
  change (fold_left _ _ _) with (handleMutation (Watching q fr tq T tr)).
  unfold watching, handleMutation, resetQuietTimer. settle_ids q. reflexivity.
Qed.

(** The quiet deadline comes first: the quiet path. *)
Lemma advance_settles q fr tq t tr T :
  (1 < q)%positive ->
  t <= tq + quietPeriod c -> tq + quietPeriod c <= T ->
  tq + quietPeriod c < t0 + maxWaitTime c ->
  advance T (Watching q fr tq t tr)
  = Settled fr T (tr ++ complete_effects f (tq + quietPeriod c)).
Proof.
  intros Hq H1 H2 H3. unfold advance.
  change (length _) with 2%nat. cbn [run_timers].
  rewrite next_due_watching.
  destruct (Z.ltb_spec (tq + quietPeriod c) (t0 + maxWaitTime c)); [|lia].
  destruct (Z.leb_spec (tq + quietPeriod c) T); [|lia].
  rewrite run_timer_quiet by lia. unfold settled. cbn. now rewrite Z.max_r by lia.
Qed.

(** The absolute deadline comes first, or at the same time: the timeout
    path. *)
Lemma advance_expires q fr tq t tr T :
  (1 < q)%positive ->
  t <= t0 + maxWaitTime c -> t0 + maxWaitTime c <= T ->
  t0 + maxWaitTime c <= tq + quietPeriod c ->
  advance T (Watching q fr tq t tr)
  = Expired fr T (tr ++ timeout_effects f g (t0 + maxWaitTime c)).
Proof.
  intros Hq H1 H2 H3. unfold advance.
  change (length _) with 2%nat. cbn [run_timers].
  rewrite next_due_watching.
  destruct (Z.ltb_spec (tq + quietPeriod c) (t0 + maxWaitTime c)); [lia|].
  destruct (Z.leb_spec (t0 + maxWaitTime c) T); [|lia].
  rewrite run_timer_timeout by lia. unfold expired. cbn. now rewrite Z.max_r by lia.
Qed.

Lemma mutation_expires q fr tq t tr T :
  (1 < q)%positive ->
  t <= t0 + maxWaitTime c -> t0 + maxWaitTime c <= T ->
  t0 + maxWaitTime c <= tq + quietPeriod c ->
  mutation T (Watching q fr tq t tr)
  = Expired fr T (tr ++ timeout_effects f g (t0 + maxWaitTime c)).
Proof.
  intros. unfold mutation. rewrite advance_expires by lia. reflexivity.
Qed.

Lemma advance_expired fr t tr T :
  advance T (Expired fr t tr) = Expired fr (Z.max t T) tr.
Proof. reflexivity. Qed.

Lemma mutation_expired fr t tr T :
  mutation T (Expired fr t tr) = Expired fr (Z.max t T) tr.
Proof. reflexivity. Qed.

(** While no gap reaches the quiet period and the deadline is ahead, the
    detector keeps watching, its quiet timer armed at the last mutation. *)
Lemma mutations_watching ts : forall q fr tq,
  (1 < q)%positive -> (q < fr)%positive ->
  spaced (quietPeriod c) tq ts ->
  List.last ts tq < t0 + maxWaitTime c ->
  exists q' fr', (1 < q')%positive /\ (q' < fr')%positive /\
    mutations ts (Watching q fr tq tq [])
    = Watching q' fr' (List.last ts tq) (List.last ts tq) [].
Proof.
  induction ts as [|a ts IH]; intros q fr tq Hq Hfr Hs Hl.
  - exists q, fr. auto.
  - destruct Hs as [Ha Hs]. rewrite last_cons in *.
    pose proof (spaced_last _ _ _ Hs) as Hge.
    rewrite mutations_cons, mutation_watching by lia.
    destruct (IH fr (Pos.succ fr) a) as (q' & fr' & ? & ? & E); try lia; auto.
    exists q', fr'. auto.
Qed.

(** Once the deadline has passed, later mutation batches reach no
    observer. *)
Lemma mutations_expired ts : forall fr t tr,
  exists t', mutations ts (Expired fr t tr) = Expired fr t' tr.
Proof.
  induction ts as [|a ts IH]; intros fr t tr; [now exists t|].
  rewrite mutations_cons, mutation_expired. apply IH.
Qed.

(** Under mutations that never pause for a quiet period, the detector
    watches until the deadline and is expired from then on. *)
Lemma mutations_ceiling ts : forall q fr tq,
  (1 < q)%positive -> (q < fr)%positive ->
  tq <= t0 + maxWaitTime c ->
  spaced (quietPeriod c) tq ts ->
  (List.last ts tq <= t0 + maxWaitTime c /\
   exists q' fr', (1 < q')%positive /\ (q' < fr')%positive /\
     mutations ts (Watching q fr tq tq [])
     = Watching q' fr' (List.last ts tq) (List.last ts tq) [])
  \/
  (t0 + maxWaitTime c <= List.last ts tq /\
   exists fr' t',
     mutations ts (Watching q fr tq tq [])
     = Expired fr' t' (timeout_effects f g (t0 + maxWaitTime c))).
Proof.
  induction ts as [|a ts IH]; intros q fr tq Hq Hfr Hd Hs.
  - left. split; [exact Hd|]. exists q, fr. auto.
  - destruct Hs as [Ha Hs]. rewrite last_cons.
    pose proof (spaced_last _ _ _ Hs) as Hge.
    rewrite mutations_cons.
    destruct (Z.lt_ge_cases a (t0 + maxWaitTime c)) as [Hlt|Hle].
    + rewrite mutation_watching by lia.
      apply (IH fr (Pos.succ fr) a); auto; lia.
    + right. split; [lia|].
      rewrite mutation_expires by lia.
      destruct (mutations_expired ts fr a (timeout_effects f g (t0 + maxWaitTime c)))
        as [t' E].
      exists fr, t'. exact E.
Qed.

End Timeline.

(** C1. Debounce correctness.  A detector whose two periods are delays the
    host's timers take as they are (below [2^31] ms) is started at [t0] on
    a page where its target exists; mutation batches arrive at the times
    [ts], the first less than [quietPeriod] after the start and each next
    one less than [quietPeriod] after the one before; the quiet period
    after the last of them ends before [maxWaitTime] has elapsed.  Then, at
    any later time
    [T], the callbacks invoked so far are: none while [T] is before the last
    mutation plus [quietPeriod], and from then on exactly one, [onComplete],
    invoked at the last mutation plus [quietPeriod]. *)
Theorem debounce_fires_after_last_mutation
    (c : config) (f : callback) (g : option callback)
    (bd : bool) (sel : string -> lookup) (t0 : Z) (ts : list Z) (T : Z) :
  target c (new_page t0 bd sel) = Present ->
  0 <= quietPeriod c < 2 ^ 31 ->
  maxWaitTime c < 2 ^ 31 ->
  spaced (quietPeriod c) t0 ts ->
  List.last ts t0 + quietPeriod c < t0 + maxWaitTime c ->
  List.last ts t0 <= T ->
  calls (advance T (mutations ts (started c (Some f) g (new_page t0 bd sel)))).2
  = if T <? List.last ts t0 + quietPeriod c then []
    else [(List.last ts t0 + quietPeriod c, CallOnComplete f)].
Proof.
  intros Htarget Hqp Hmw' Hs Hd HT.
  pose proof (spaced_last _ _ _ Hs) as Hge.
  assert (Hmw : 0 <= maxWaitTime c < 2 ^ 31) by lia.
  rewrite started_watching by assumption.
  destruct (mutations_watching c (Some f) g bd sel t0 Hqp ts 3 4 t0)
    as (q & fr & Hq & Hfr & E); try lia; auto.
  rewrite E. destruct (Z.ltb_spec T (List.last ts t0 + quietPeriod c)).
  - rewrite advance_watching by lia. reflexivity.
  - rewrite advance_settles by lia. reflexivity.
Qed.

(** The scenario of the specification: [quietPeriod] 500, [maxWaitTime]
    10000, mutations at 0, 100 and 300. *)
Lemma debounce_fires_after_last_mutation_witness :
  calls (advance 10000 (mutations [0; 100; 300]
           (started default_config (Some 1%nat) None
              (new_page 0 true (fun _ => Absent))))).2
  = [(800, CallOnComplete 1%nat)].
Proof.
  apply (debounce_fires_after_last_mutation default_config 1%nat None true
           (fun _ => Absent) 0 [0; 100; 300] 10000); cbn; try reflexivity; lia.
Defined.

(** C2. Timeout ceiling.  A detector is started at [t0] with [onComplete]
    and an optional [onTimeout]; mutation batches keep arriving, each less
    than [quietPeriod] after the one before (the first after the start), so
    that at time [T] the last one is still less than [quietPeriod] old.
    Then the callbacks invoked up to [T] are: none before
    [t0 + maxWaitTime], and from then on exactly one, invoked at
    [t0 + maxWaitTime]: [onTimeout] when it was given, [onComplete]
    otherwise.  Both periods are delays the host's timers take as they are
    (below [2^31] ms). *)
Theorem timeout_ceiling
    (c : config) (f : callback) (g : option callback)
    (bd : bool) (sel : string -> lookup) (t0 : Z) (ts : list Z) (T : Z) :
  target c (new_page t0 bd sel) = Present ->
  0 <= maxWaitTime c < 2 ^ 31 ->
  quietPeriod c < 2 ^ 31 ->
  spaced (quietPeriod c) t0 ts ->
  List.last ts t0 <= T < List.last ts t0 + quietPeriod c ->
  calls (advance T (mutations ts (started c (Some f) g (new_page t0 bd sel)))).2
  = if T <? t0 + maxWaitTime c then []
    else [(t0 + maxWaitTime c,
           match g with
           | Some g' => CallOnTimeout g'
           | None => CallOnComplete f
           end)].
Proof.
  intros Htarget Hmw Hqp' Hs HT.
  assert (Hqp : 0 <= quietPeriod c < 2 ^ 31) by lia.
  rewrite started_watching by assumption.
  destruct (mutations_ceiling c (Some f) g bd sel t0 Hqp ts 3 4 t0)
    as [(Hl & q & fr & Hq & Hfr & E)|(Hl & fr & t' & E)]; try lia; auto; rewrite E.
  - destruct (Z.ltb_spec T (t0 + maxWaitTime c)).
    + rewrite advance_watching by lia. reflexivity.
    + rewrite advance_expires by lia. destruct g; reflexivity.
  - rewrite advance_expired.
    destruct (Z.ltb_spec T (t0 + maxWaitTime c)); [lia|]. destruct g; reflexivity.
Qed.

(** The scenario of the specification: a mutation every 100 ms. *)
Lemma timeout_ceiling_witness :
  calls (advance 10050 (mutations (busy 101)
           (started default_config (Some 1%nat) (Some 2%nat)
              (new_page 0 true (fun _ => Absent))))).2
  = [(10000, CallOnTimeout 2%nat)].
Proof.
  apply (timeout_ceiling default_config 1%nat (Some 2%nat) true (fun _ => Absent) 0
           (busy 101) 10050);
    [reflexivity | cbn; lia | cbn; lia |
     | vm_compute; split; [discriminate | reflexivity]].
  vm_compute. repeat split; try discriminate; reflexivity.
Defined.

(** ** The event loop runs every due timer *)

Lemma fold_sooner_In ts : forall t, In (fold_left sooner ts t) (t :: ts).
Proof.
  induction ts as [|a ts IH]; intros t; [now left|].
  cbn [fold_left]. destruct (IH (sooner t a)) as [H|H].
  - rewrite <- H. unfold sooner. destruct (_ <? _); [right; now left | now left].
  - right. now right.
Qed.

Lemma next_due_In T h t : next_due T h = Some t -> In t (timers h).
Proof.
  unfold next_due, soonest. destruct (timers h) as [|a ts]; [discriminate|].
  destruct (_ <=? _); [|discriminate]. intros H; inversion H; subst.
  apply fold_sooner_In.
Qed.

Lemma filter_length_lt {A} (p : A -> bool) (l : list A) x :
  In x l -> p x = false -> (length (List.filter p l) < length l)%nat.
Proof.
  induction l as [|a l IH]; intros Hin Hx; [destruct Hin|].
  pose proof (List.filter_length_le p l). cbn [List.filter].
  destruct Hin as [->|Hin].
  - rewrite Hx. cbn. lia.
  - specialize (IH Hin Hx). destruct (p a); cbn; lia.
Qed.

Lemma cleanup_timers_le w :
  (length (timers (cleanup w).2) <= length (timers w.2))%nat.
Proof.
  destruct w as [[c o q t l d f g] h]. unfold cleanup.
  destruct o, q, t; cbn;
    repeat (etransitivity; [apply List.filter_length_le|]); reflexivity.
Qed.

Lemma handlers_timers_le w :
  (length (timers (handleComplete w).2) <= length (timers w.2))%nat /\
  (length (timers (handleTimeout w).2) <= length (timers w.2))%nat.
Proof.
  pose proof (cleanup_timers_le w) as Hc.
  pose proof (cleanup_timers_le (on_loader (with_flags false true) w)) as Hc'.
  pose proof (cleanup_timers_le
    (on_host (emit (ConsoleWarn "DynamicContentLoader: Maximum wait time reached")) w))
    as Hc''.
  unfold handleComplete, handleTimeout. destruct (isComplete w.1); [lia|].
  split.
  - destruct (onComplete (cleanup (on_loader (with_flags false true) w)).1); exact Hc'.
  - destruct (onTimeout _); [exact Hc''|]. destruct (onComplete _); exact Hc''.
Qed.

Lemma run_timer_shrinks t w :
  In t (timers w.2) -> (length (timers (run_timer t w).2) < length (timers w.2))%nat.
Proof.
  intros Hin. unfold run_timer.
  set (w' := on_host (with_now _) (on_host (clearTimeout (tid t)) w)).
  assert (length (timers w'.2) < length (timers w.2))%nat as Hlt.
  { unfold w'. cbn. apply (filter_length_lt _ _ t Hin). now rewrite Pos.eqb_refl. }
  destruct (handlers_timers_le w') as [H1 H2]. destruct (job t); lia.
Qed.

Lemma run_timers_all_due T : forall n w,
  (length (timers w.2) <= n)%nat -> next_due T (run_timers n T w).2 = None.
Proof.
  induction n as [|n IH]; intros w Hn.
  - cbn. unfold next_due. destruct (timers w.2); [reflexivity | cbn in Hn; lia].
  - cbn [run_timers]. destruct (next_due T w.2) as [t|] eqn:E; [|exact E].
    apply IH. pose proof (run_timer_shrinks t w (next_due_In _ _ _ E)). lia.
Qed.

(** [advance] has fuel enough: when it returns, no timer due by [T] is left
    in the queue. *)
Lemma advance_all_due T w : next_due T (advance T w).2 = None.
Proof.
  unfold advance. apply (run_timers_all_due T (length (timers w.2)) w). lia.
Qed.

(** ** The two completion paths and the flags *)

Lemma cleanup_keeps_flags (w : world) :
  isLoading (cleanup w).1 = isLoading w.1 /\
  isComplete (cleanup w).1 = isComplete w.1.
Proof.
  destruct w as [[c o q t l d f g] h]. unfold cleanup.
  destruct o, q, t; split; reflexivity.
Qed.

(** [handleTimeout] assigns neither flag. *)
Lemma handleTimeout_keeps_flags (w : world) :
  isLoading (handleTimeout w).1 = isLoading w.1 /\
  isComplete (handleTimeout w).1 = isComplete w.1.
Proof.
  unfold handleTimeout. destruct (isComplete w.1) eqn:D; [now rewrite D|].
  set (w1 := on_host (emit _) w).
  destruct (cleanup_keeps_flags w1) as [Hl Hd].
  change (isLoading w1.1) with (isLoading w.1) in Hl.
  change (isComplete w1.1) with (isComplete w.1) in Hd.
  destruct (onTimeout _); [|destruct (onComplete _)]; cbn [on_host fst];
    rewrite ?Hl, ?Hd; auto.
Qed.

(** [handleComplete] sets both. *)
Lemma handleComplete_sets_flags (w : world) :
  isComplete w.1 = false ->
  isLoading (handleComplete w).1 = false /\ isComplete (handleComplete w).1 = true.
Proof.
  destruct w as [[c o q t l d f g] h]. unfold handleComplete, cleanup.
  cbn [fst isComplete]. intros ->. destruct o, q, t, f; split; reflexivity.
Qed.

(** After the quiet path, with [isComplete] set, the three handlers do
    nothing. *)
Lemma completed_handlers_inert (w : world) :
  isComplete w.1 = true ->
  handleComplete w = w /\ handleTimeout w = w /\ handleMutation w = w.
Proof.
  intros H. unfold handleComplete, handleTimeout, handleMutation. now rewrite H.
Qed.

(** C3. Idempotent completion, on the timeout path: the default detector is
    started at 0 with [onComplete] 1 and [onTimeout] 2 and mutations every
    100 ms carry it to its timeout at 10000, where [onTimeout] is invoked.
    [isComplete] is still false, so the guard of the handlers does not hold
    them back: a further [handleTimeout] invokes [onTimeout] a second time,
    and a further [handleMutation] arms a quiet timer whose expiry at 10500
    invokes [onComplete]. *)
Theorem handlers_after_timeout_fire_again :
  let w := timed_out (Some 1%nat) (Some 2%nat) in
  calls w.2 = [(10000, CallOnTimeout 2%nat)] /\
  calls (handleTimeout w).2
    = [(10000, CallOnTimeout 2%nat); (10000, CallOnTimeout 2%nat)] /\
  calls (advance 10500 (handleMutation w)).2
    = [(10000, CallOnTimeout 2%nat); (10500, CallOnComplete 1%nat)].
Proof. vm_compute. repeat split; reflexivity. Qed.

(** C4. The timeout path, on the same run: at 10000 the timeout handler has
    released the observer and both timers and has invoked [onTimeout], and
    it has left the flags as [start] set them: [hasCompleted()] returns
    false and [isRunning()] returns true, where the quiet path leaves true
    and false. *)
Theorem timeout_path_leaves_detector_running :
  let w := timed_out (Some 1%nat) (Some 2%nat) in
  calls w.2 = [(10000, CallOnTimeout 2%nat)] /\
  observer w.1 = None /\ quietTimer w.1 = None /\ timeoutTimer w.1 = None /\
  timers w.2 = [] /\ observing w.2 = [] /\
  hasCompleted w = false /\ isRunning w = true /\
  hasCompleted quiesced = true /\ isRunning quiesced = false.
Proof. vm_compute. repeat split; reflexivity. Qed.

(** ** stop *)

Lemma clearTimeout_gone i h t :
  In t (timers (clearTimeout i h)) -> tid t <> i /\ In t (timers h).
Proof.
  unfold clearTimeout. cbn [timers with_timers]. intros H.
  apply filter_In in H. destruct H as [Hin Hne]. split; [|exact Hin].
  apply Pos.eqb_neq. now destruct (tid t =? i)%positive.
Qed.

Lemma disconnect_gone o h x :
  In x (observing (disconnect o h)) -> x <> o /\ In x (observing h).
Proof.
  unfold disconnect. cbn [observing with_observing]. intros H.
  apply filter_In in H. destruct H as [Hin Hne]. split; [|exact Hin].
  apply Pos.eqb_neq. now destruct (x =? o)%positive.
Qed.

(** What [cleanup] leaves behind: the three fields are null, the observer
    is detached, both timers have left the queue, nothing was logged. *)
Lemma cleanup_releases (w : world) :
  let w' := cleanup w in
  observer w'.1 = None /\ quietTimer w'.1 = None /\ timeoutTimer w'.1 = None /\
  (forall x, In x (observing w'.2) -> Some x <> observer w.1) /\
  (forall t, In t (timers w'.2) ->
     Some (tid t) <> quietTimer w.1 /\ Some (tid t) <> timeoutTimer w.1) /\
  trace w'.2 = trace w.2 /\ now w'.2 = now w.2 /\
  isLoading w'.1 = isLoading w.1 /\ isComplete w'.1 = isComplete w.1.
Proof.
  destruct w as [[c o q t l d f g] h]. unfold cleanup.
  destruct o as [o|], q as [q|], t as [t|]; cbn;
    repeat match goal with |- _ /\ _ => split end; try reflexivity;
    intros x Hx;
    repeat match goal with
      | H : In _ (List.filter _ _) |- _ => apply filter_In in H; destruct H
      | H : negb (_ =? _)%positive = true |- _ =>
          apply negb_true_iff, Pos.eqb_neq in H
      end; try split; congruence.
Qed.

(** C7, as the code has it.  [stop()] on a detector that is running releases
    the observer and both timers, invokes neither callback and leaves the
    detector idle: [isRunning()] and [hasCompleted()] both return false.  On
    a detector that has completed, [stop()] returns at its guard: nothing
    changes, and [hasCompleted()] goes on returning true. *)
Theorem stop_returns_to_idle_only_when_running (w : world) :
  (state_of w = Observing ->
   let w' := stop w in
   observer w'.1 = None /\ quietTimer w'.1 = None /\ timeoutTimer w'.1 = None /\
   (forall x, In x (observing w'.2) -> Some x <> observer w.1) /\
   (forall t, In t (timers w'.2) ->
      Some (tid t) <> quietTimer w.1 /\ Some (tid t) <> timeoutTimer w.1) /\
   calls w'.2 = calls w.2 /\
   isRunning w' = false /\ hasCompleted w' = false /\ state_of w' = Idle) /\
  (state_of w = Completed ->
   stop w = w /\ isRunning (stop w) = false /\ hasCompleted (stop w) = true).
Proof.
  unfold state_of. split.
  - destruct (isLoading w.1) eqn:L; [intros _|destruct (isComplete w.1); discriminate].
    unfold stop. rewrite L. cbn [negb].
    destruct (cleanup_releases w) as (Ho & Hq & Ht & Hobs & Htim & Htr & _).
    destruct (cleanup w) as [l' h'] eqn:E. cbn in *.
    repeat split; auto; try apply Htim; auto.
    unfold calls, emit. cbn [trace with_trace]. rewrite List.filter_app, Htr.
    apply app_nil_r.
  - destruct (isLoading w.1) eqn:L; [discriminate|].
    destruct (isComplete w.1) eqn:D; [intros _|discriminate].
    unfold stop, isRunning, hasCompleted. rewrite L. cbn [negb]. auto.
Qed.

Lemma stop_returns_to_idle_only_when_running_witness :
  (let w := started default_config (Some 1%nat) None (new_page 0 true (fun _ => Absent)) in
   state_of w = Observing /\ state_of (stop w) = Idle /\ calls (stop w).2 = []) /\
  (state_of quiesced = Completed /\ stop quiesced = quiesced).
Proof.
  split.
  - pose proof (stop_returns_to_idle_only_when_running
                  (started default_config (Some 1%nat) None
                     (new_page 0 true (fun _ => Absent))))
      as [H _].
    specialize (H eq_refl). cbv zeta in H.
    destruct H as (_ & _ & _ & _ & _ & Hc & _ & _ & Hs). cbv zeta.
    split; [reflexivity | split; [exact Hs | rewrite Hc; reflexivity]].
  - pose proof (stop_returns_to_idle_only_when_running quiesced) as [_ H].
    specialize (H eq_refl). split; [reflexivity | apply H].
Defined.

(** C7 as stated does not hold from [Completed]: after the quiet path,
    [stop()] leaves [hasCompleted()] true and the detector is not idle. *)
Lemma stop_on_completed_stays_completed :
  state_of quiesced = Completed /\
  hasCompleted (stop quiesced) = true /\
  state_of (stop quiesced) <> Idle.
Proof. split; [reflexivity | split; [reflexivity | vm_compute; discriminate]]. Qed.

(** ** Double start *)

Ltac same_run_hosts :=
  intros (E1 & E2 & E3 & E4 & E5 & E6 & E7 & E8);
  match goal with
  | w : world, w' : world |- _ =>
      destruct w as [l [n fr ts os tr b s]];
      destruct w' as [l' [n' fr' ts' os' tr' b' s']]
  end;
  cbn in E1, E2, E3, E4, E5, E6, E7; unfold calls in E8; cbn in E8; subst.

Ltac same_run_close :=
  unfold same_run, calls; cbn;
  rewrite ?List.filter_app;
  repeat match goal with |- _ /\ _ => split end; try reflexivity; try congruence.

Lemma same_run_on_loader k w w' :
  same_run w w' -> same_run (on_loader k w) (on_loader k w').
Proof. same_run_hosts. same_run_close. Qed.

Lemma same_run_emit e w w' :
  same_run w w' -> same_run (on_host (emit e) w) (on_host (emit e) w').
Proof. same_run_hosts. same_run_close. Qed.

Lemma same_run_clearTimeout i w w' :
  same_run w w' -> same_run (on_host (clearTimeout i) w) (on_host (clearTimeout i) w').
Proof. same_run_hosts. same_run_close. Qed.

Lemma same_run_disconnect o w w' :
  same_run w w' -> same_run (on_host (disconnect o) w) (on_host (disconnect o) w').
Proof. same_run_hosts. same_run_close. Qed.

Lemma same_run_with_now t w w' :
  same_run w w' -> same_run (on_host (with_now t) w) (on_host (with_now t) w').
Proof. same_run_hosts. same_run_close. Qed.

Lemma same_run_loader w w' : same_run w w' -> w'.1 = w.1.
Proof. now intros (? & _). Qed.

Lemma same_run_cleanup w w' :
  same_run w w' -> same_run (cleanup w) (cleanup w').
Proof.
  intros H. unfold cleanup.
  assert (Step : forall (sel : loader -> option handle) (act : handle -> world -> world) v v',
            (forall v v' i, same_run v v' -> same_run (act i v) (act i v')) ->
            same_run v v' ->
            same_run (match sel v.1 with Some i => act i v | None => v end)
                     (match sel v'.1 with Some i => act i v' | None => v' end)).
  { intros sel act v v' Hact Hv. rewrite (same_run_loader _ _ Hv).
    destruct (sel v.1); auto. }
  apply (Step timeoutTimer
           (fun i v => on_loader (with_timeoutTimer None) (on_host (clearTimeout i) v)));
    [intros; now apply same_run_on_loader, same_run_clearTimeout|].
  apply (Step quietTimer
           (fun i v => on_loader (with_quietTimer None) (on_host (clearTimeout i) v)));
    [intros; now apply same_run_on_loader, same_run_clearTimeout|].
  apply (Step observer
           (fun i v => on_loader (with_observer None) (on_host (disconnect i) v)));
    [intros; now apply same_run_on_loader, same_run_disconnect|].
  exact H.
Qed.

Lemma same_run_handleComplete w w' :
  same_run w w' -> same_run (handleComplete w) (handleComplete w').
Proof.
  intros H. unfold handleComplete. rewrite (same_run_loader _ _ H).
  destruct (isComplete w.1); [exact H|].
  pose proof (same_run_cleanup _ _ (same_run_on_loader (with_flags false true) _ _ H))
    as Hc.
  apply same_run_emit. rewrite (same_run_loader _ _ Hc).
  destruct (onComplete _); [apply same_run_emit|]; exact Hc.
Qed.

Lemma same_run_handleTimeout w w' :
  same_run w w' -> same_run (handleTimeout w) (handleTimeout w').
Proof.
  intros H. unfold handleTimeout. rewrite (same_run_loader _ _ H).
  destruct (isComplete w.1); [exact H|].
  pose proof (same_run_cleanup _ _
    (same_run_emit (ConsoleWarn "DynamicContentLoader: Maximum wait time reached") _ _ H))
    as Hc.
  rewrite (same_run_loader _ _ Hc).
  destruct (onTimeout _); [apply same_run_emit; exact Hc|].
  destruct (onComplete _); [apply same_run_emit|]; exact Hc.
Qed.

Lemma same_run_handleMutation w w' :
  same_run w w' -> same_run (handleMutation w) (handleMutation w').
Proof.
  intros H. unfold handleMutation. rewrite (same_run_loader _ _ H).
  destruct (isComplete w.1); [exact H|]. unfold resetQuietTimer.
  assert (same_run
            (match quietTimer w.1 with
             | Some q => on_host (clearTimeout q) w
             | None => w
             end)
            (match quietTimer w'.1 with
             | Some q => on_host (clearTimeout q) w'
             | None => w'
             end)) as Hq.
  { rewrite (same_run_loader _ _ H).
    destruct (quietTimer w.1); [apply same_run_clearTimeout|]; exact H. }
  revert Hq. generalize (match quietTimer w.1 with
                         | Some q => on_host (clearTimeout q) w
                         | None => w
                         end).
  generalize (match quietTimer w'.1 with
              | Some q => on_host (clearTimeout q) w'
              | None => w'
              end).
  clear. intros w' w. same_run_hosts. same_run_close.
Qed.

Lemma same_run_run_timer x w w' :
  same_run w w' -> same_run (run_timer x w) (run_timer x w').
Proof.
  intros H. unfold run_timer.
  assert (now w'.2 = now w.2) as -> by (destruct H as (_ & -> & _); reflexivity).
  pose proof (same_run_with_now (Z.max (now w.2) (due x)) _ _
                (same_run_clearTimeout (tid x) _ _ H)) as H'.
  destruct (job x); [apply same_run_handleComplete | apply same_run_handleTimeout];
    exact H'.
Qed.

Lemma same_run_run_timers n T : forall w w',
  same_run w w' -> same_run (run_timers n T w) (run_timers n T w').
Proof.
  induction n as [|n IH]; intros w w' H; [exact H|]. cbn [run_timers].
  assert (next_due T w'.2 = next_due T w.2) as ->
    by (unfold next_due; destruct H as (_ & _ & _ & -> & _); reflexivity).
  destruct (next_due T w.2); [apply IH, same_run_run_timer|]; exact H.
Qed.

Lemma same_run_advance T w w' :
  same_run w w' -> same_run (advance T w) (advance T w').
Proof.
  intros H. unfold advance.
  assert (length (timers w'.2) = length (timers w.2)) as ->
    by (destruct H as (_ & _ & _ & -> & _); reflexivity).
  pose proof (same_run_run_timers (length (timers w.2)) T w w' H) as H'.
  revert H'. generalize (run_timers (length (timers w.2)) T w).
  generalize (run_timers (length (timers w.2)) T w').
  clear. intros w' w. same_run_hosts. same_run_close.
Qed.

Lemma same_run_mutation T w w' :
  same_run w w' -> same_run (mutation T w) (mutation T w').
Proof.
  intros H. apply (same_run_advance T) in H. unfold mutation.
  assert (observing (advance T w').2 = observing (advance T w).2) as ->
    by (destruct H as (_ & _ & _ & _ & -> & _); reflexivity).
  revert H. generalize (advance T w) (advance T w'). intros v v'.
  generalize (observing v.2). intros os. revert v v'.
  induction os as [|o os IH]; intros v v' H; [exact H|].
  cbn [fold_left]. apply IH, same_run_handleMutation, H.
Qed.

Lemma same_run_mutations Ts : forall w w',
  same_run w w' -> same_run (mutations Ts w) (mutations Ts w').
Proof.
  induction Ts as [|T Ts IH]; intros w w' H; [exact H|].
  apply (IH (mutation T w) (mutation T w')), same_run_mutation, H.
Qed.

(** C8. Double-start rejection.  [start] on a detector that is running
    returns without throwing; the detector's fields, the pending timers with
    their deadlines, the attached observers and the clock are what they
    were, and one warning has been logged.  Whatever mutations and however
    much time follow, the detector and the callbacks invoked are the same as
    if the second [start] had not been made: the callbacks and the deadline
    that govern are the original ones. *)
Theorem double_start_rejected (f g : option callback) (w : world) :
  isLoading w.1 = true ->
  let w' := (start f g w).1 in
  (start f g w).2 = Returned /\
  w'.1 = w.1 /\
  timers w'.2 = timers w.2 /\ observing w'.2 = observing w.2 /\
  now w'.2 = now w.2 /\
  trace w'.2
  = trace w.2 ++ [(now w.2, ConsoleWarn "DynamicContentLoader is already running")] /\
  (forall Ts T,
     (advance T (mutations Ts w')).1 = (advance T (mutations Ts w)).1 /\
     calls (advance T (mutations Ts w')).2 = calls (advance T (mutations Ts w)).2).
Proof.
  intros H. unfold start. rewrite H. cbn [fst snd].
  repeat match goal with |- _ /\ _ => split end; try reflexivity.
  intros Ts T.
  assert (same_run w
            (on_host (emit (ConsoleWarn "DynamicContentLoader is already running")) w))
    as S.
  { clear. destruct w as [l [n fr ts os tr b s]]. unfold same_run, calls. cbn.
    rewrite List.filter_app. cbn. rewrite app_nil_r. auto 10. }
  apply (same_run_mutations Ts), (same_run_advance T) in S.
  destruct S as (S1 & _ & _ & _ & _ & _ & _ & S2). auto.
Qed.

(** A second [start] at 5000, with other callbacks, in the middle of
    continuous mutations: the timeout comes at 10000 and goes to the first
    [onTimeout]. *)
Lemma double_start_rejected_witness :
  let w := mutations (busy 51)
             (started default_config (Some 1%nat) (Some 2%nat)
                (new_page 0 true (fun _ => Absent))) in
  let w' := (start (Some 3%nat) (Some 4%nat) w).1 in
  w'.1 = w.1 /\ timers w'.2 = timers w.2 /\
  calls (advance 10000 (mutations (map (fun t => 5000 + t) (busy 50)) w')).2
  = [(10000, CallOnTimeout 2%nat)].
Proof.
  intros w w'.
  destruct (double_start_rejected (Some 3%nat) (Some 4%nat) w eq_refl)
    as (_ & H1 & H2 & _ & _ & _ & H3).
  split; [exact H1 | split; [exact H2 |]].
  destruct (H3 (map (fun t => 5000 + t) (busy 50)) 10000) as [_ H4].
  subst w'. rewrite H4. vm_compute. reflexivity.
Defined.

(** * Further properties of the detector *)

Import Script.

Ltac open_world w :=
  destruct w as [[c ob q t l d f g] [n fr ts os tr b s]].

Ltac shapes :=
  unfold released, armed_only, armed in *; cbn [fst snd observer quietTimer
    timeoutTimer timers observing fresh isLoading isComplete] in *.

Lemma released_cleanup w :
  released w \/ armed_only w \/ armed w -> released (cleanup w).
Proof.
  open_world w. unfold cleanup. shapes.
  intros [(-> & -> & -> & -> & ->) | [(a & o & d0 & -> & -> & -> & -> & -> & _)
    | (a & o & q0 & d1 & d2 & -> & -> & -> & -> & -> & Hne & _)]].
  - cbn. auto.
  - run_model. rewrite Pos.eqb_refl. cbn. auto.
  - run_model. rewrite !Pos.eqb_refl.
    replace (a =? q0)%positive with false by (symmetry; apply Pos.eqb_neq; lia).
    cbn. rewrite ?Pos.eqb_refl. cbn. auto 10.
Qed.

Lemma released_frame w w' :
  observer w'.1 = observer w.1 -> quietTimer w'.1 = quietTimer w.1 ->
  timeoutTimer w'.1 = timeoutTimer w.1 -> timers w'.2 = timers w.2 ->
  observing w'.2 = observing w.2 -> released w -> released w'.
Proof. unfold released. intros -> -> -> -> ->. auto. Qed.

Lemma held_frame w w' :
  observer w'.1 = observer w.1 -> quietTimer w'.1 = quietTimer w.1 ->
  timeoutTimer w'.1 = timeoutTimer w.1 -> timers w'.2 = timers w.2 ->
  observing w'.2 = observing w.2 -> fresh w'.2 = fresh w.2 ->
  released w \/ armed_only w \/ armed w ->
  released w' \/ armed_only w' \/ armed w'.
Proof. unfold released, armed_only, armed. intros -> -> -> -> -> ->. auto. Qed.

(** Logging, the clock and the configuration are no part of what is
    owned. *)
Lemma owned_frame w w' :
  observer w'.1 = observer w.1 -> quietTimer w'.1 = quietTimer w.1 ->
  timeoutTimer w'.1 = timeoutTimer w.1 -> timers w'.2 = timers w.2 ->
  observing w'.2 = observing w.2 -> fresh w'.2 = fresh w.2 ->
  isLoading w'.1 = isLoading w.1 -> isComplete w'.1 = isComplete w.1 ->
  owned w -> owned w'.
Proof.
  intros Ho Hq Ht Hts Hos Hf Hl Hd. unfold owned. rewrite Hl, Hd.
  intros [[? H]|(? & ? & H)]; [left | right].
  - split; [assumption|]. eapply released_frame; eauto.
  - split; [assumption|]. split; [assumption|]. eapply held_frame; eauto.
Qed.

Lemma owned_emit e w : owned w -> owned (on_host (emit e) w).
Proof. apply owned_frame; reflexivity. Qed.

Lemma owned_with_now t w : owned w -> owned (on_host (with_now t) w).
Proof. apply owned_frame; reflexivity. Qed.

Lemma owned_held w : owned w -> released w \/ armed_only w \/ armed w.
Proof. intros [[_ H]|(_ & _ & H)]; auto. Qed.

Lemma released_emit e w : released w -> released (on_host (emit e) w).
Proof. apply released_frame; reflexivity. Qed.

Lemma owned_handleComplete w : owned w -> owned (handleComplete w).
Proof.
  intros H. unfold handleComplete. destruct (isComplete w.1) eqn:D; [exact H|].
  set (w1 := on_loader (with_flags false true) w).
  assert (released (cleanup w1)) as Hr.
  { apply released_cleanup. eapply held_frame; [..|apply (owned_held w H)]; reflexivity. }
  destruct (cleanup_keeps_flags w1) as [Hl Hd].
  left. split.
  - destruct (onComplete _); cbn [on_host fst]; exact Hl.
  - destruct (onComplete _); repeat apply released_emit; exact Hr.
Qed.

Lemma owned_handleTimeout w :
  owned w -> isLoading w.1 = true -> owned (handleTimeout w).
Proof.
  intros H L. unfold handleTimeout. destruct (isComplete w.1) eqn:D; [exact H|].
  set (w1 := on_host (emit _) w).
  assert (released (cleanup w1)) as Hr.
  { apply released_cleanup. eapply held_frame; [..|apply (owned_held w H)]; reflexivity. }
  destruct (cleanup_keeps_flags w1) as [Hl Hd].
  change (isLoading w1.1) with (isLoading w.1) in Hl.
  change (isComplete w1.1) with (isComplete w.1) in Hd.
  right. rewrite L in Hl. rewrite D in Hd.
  destruct (onTimeout _); [|destruct (onComplete _)]; cbn [on_host fst];
    repeat split; auto; left; repeat apply released_emit; exact Hr.
Qed.

(** A mutation seen by the attached observer swaps the quiet timer for a
    new one. *)
Lemma armed_handleMutation w :
  isComplete w.1 = false -> armed w ->
  armed (handleMutation w) /\ isLoading (handleMutation w).1 = isLoading w.1 /\
  isComplete (handleMutation w).1 = false.
Proof.
  open_world w. unfold handleMutation, resetQuietTimer. shapes.
  intros -> (a & o & q0 & d1 & d2 & -> & -> & -> & -> & -> & Hne & Ha & Hq).
  run_model. rewrite Pos.eqb_refl.
  replace (a =? q0)%positive with false by (symmetry; apply Pos.eqb_neq; lia).
  cbn. repeat split; auto.
  exists a, o, fr, d1, (n + timeout_delay (quietPeriod c)). repeat split; auto; lia.
Qed.

Lemma owned_stop w : owned w -> owned (stop w).
Proof.
  intros H. unfold stop. destruct (isLoading w.1) eqn:L; cbn [negb]; [|exact H].
  left. split; [reflexivity|]. apply released_emit.
  eapply released_frame; [..|apply (released_cleanup w (owned_held w H))]; reflexivity.
Qed.

Lemma owned_reconfigure o w : owned w -> owned (reconfigure o w).
Proof.
  intros H. unfold reconfigure. destruct (isLoading w.1); [now apply owned_emit|].
  revert H. apply owned_frame; reflexivity.
Qed.

Lemma owned_start f0 g0 w : owned w -> owned (start f0 g0 w).1.
Proof.
  intros H. unfold start. destruct (isLoading w.1) eqn:L; [now apply owned_emit|].
  destruct H as [[_ H]|(L' & _)]; [|congruence].
  open_world w. shapes. destruct H as (-> & -> & -> & -> & ->).
  run_model. destruct (target c _).
  - right. cbn. repeat split. right. left. exists fr, (Pos.succ fr), (n + timeout_delay (maxWaitTime c)).
    cbn. repeat split; auto; lia.
  - unfold handleComplete, cleanup. run_model. rewrite Pos.eqb_refl. cbn.
    left. destruct f0; cbn; repeat split; auto.
  - unfold resetQuietTimer. run_model.
    right. repeat split. right. right.
    exists fr, (Pos.succ fr), (Pos.succ (Pos.succ fr)),
      (n + timeout_delay (maxWaitTime c)), (n + timeout_delay (quietPeriod c)).
    cbn. repeat split; auto; lia.
Qed.

Lemma cleanup_subset w :
  (forall t, In t (timers (cleanup w).2) -> In t (timers w.2)) /\
  (forall o, In o (observing (cleanup w).2) -> In o (observing w.2)).
Proof.
  open_world w. unfold cleanup.
  destruct ob, q, t; cbn; split; intros x Hx;
    repeat match goal with
      | H : In _ (List.filter _ _) |- _ => apply filter_In in H; destruct H
      end; assumption.
Qed.

Lemma released_cleanup_covered w : covered w -> released (cleanup w).
Proof.
  intros [Ht Ho].
  destruct (cleanup_releases w) as (E1 & E2 & E3 & Hobs & Htim & _).
  destruct (cleanup_subset w) as [St So]. cbv zeta in *.
  unfold released. repeat split; auto.
  - destruct (timers (cleanup w).2) as [|t ts] eqn:E; [reflexivity|].
    assert (In t (t :: ts)) as Hin by now left.
    destruct (Htim t Hin) as [N1 N2]. destruct (Ht t (St t Hin)); congruence.
  - destruct (observing (cleanup w).2) as [|o os] eqn:E; [reflexivity|].
    assert (In o (o :: os)) as Hin by now left.
    specialize (Hobs o Hin). specialize (Ho o (So o Hin)). congruence.
Qed.

Lemma owned_covered w : owned w -> covered w.
Proof.
  intros H. apply owned_held in H. open_world w. unfold covered. shapes.
  destruct H as [(-> & -> & -> & -> & ->) | [(a & o & d0 & -> & -> & -> & -> & -> & _)
    | (a & o & q0 & d1 & d2 & -> & -> & -> & -> & -> & _)]]; cbn;
    split; intros x Hx; intuition (subst; auto).
Qed.

Lemma covered_clear i t w :
  covered w -> covered (on_host (with_now t) (on_host (clearTimeout i) w)).
Proof.
  intros [Ht Ho]. split; [|exact Ho].
  intros x Hx. cbn in Hx. apply filter_In in Hx. apply Ht, Hx.
Qed.

Lemma released_clear i t w :
  released w -> released (on_host (with_now t) (on_host (clearTimeout i) w)).
Proof.
  unfold released. intros (? & ? & ? & Hts & ?). cbn. rewrite Hts. auto.
Qed.

Lemma owned_run_timer x w : owned w -> owned (run_timer x w).
Proof.
  intros H. unfold run_timer.
  set (w1 := on_host (with_now _) (on_host (clearTimeout (tid x)) w)).
  assert (covered w1) as Hc by (apply covered_clear, owned_covered, H).
  assert (isComplete w.1 = true -> owned w1) as Hdone.
  { intros D. destruct H as [[L R]|(_ & D' & _)]; [|congruence].
    left. split; [exact L|]. now apply released_clear. }
  destruct (job x).
  - unfold handleComplete. destruct (isComplete w1.1) eqn:D; [now apply Hdone|].
    set (w2 := on_loader (with_flags false true) w1).
    assert (released (cleanup w2)) as Hr by (apply released_cleanup_covered; exact Hc).
    destruct (cleanup_keeps_flags w2) as [Hl _].
    left. split.
    + destruct (onComplete _); cbn [on_host fst]; exact Hl.
    + destruct (onComplete _); repeat apply released_emit; exact Hr.
  - unfold handleTimeout. destruct (isComplete w1.1) eqn:D; [now apply Hdone|].
    set (w2 := on_host (emit _) w1).
    assert (released (cleanup w2)) as Hr by (apply released_cleanup_covered; exact Hc).
    destruct (cleanup_keeps_flags w2) as [Hl Hd].
    change (isLoading w2.1) with (isLoading w.1) in Hl.
    change (isComplete w2.1) with (isComplete w.1) in Hd.
    change (isComplete w1.1) with (isComplete w.1) in D. rewrite D in Hd.
    assert (forall v, isLoading v.1 = isLoading w.1 -> isComplete v.1 = false ->
                      released v -> owned v) as Hv.
    { intros v El Ed Rv. destruct (isLoading w.1); [right | left]; auto. }
    destruct (onTimeout _); [|destruct (onComplete _)]; apply Hv; cbn [on_host fst];
      auto; repeat apply released_emit; exact Hr.
Qed.

Lemma owned_run_timers T n : forall w, owned w -> owned (run_timers n T w).
Proof.
  induction n as [|n IH]; intros w H; [exact H|]. cbn [run_timers].
  destruct (next_due T w.2); [apply IH, owned_run_timer|]; exact H.
Qed.

Lemma owned_advance T w : owned w -> owned (advance T w).
Proof. intros H. unfold advance. apply owned_with_now, owned_run_timers, H. Qed.

Lemma owned_mutation T w : owned w -> owned (mutation T w).
Proof.
  intros H. apply (owned_advance T) in H. unfold mutation.
  destruct H as [[L R]|(L & D & [R|[R|R]])].
  - assert (observing (advance T w).2 = []) as -> by apply R. left. auto.
  - assert (observing (advance T w).2 = []) as -> by apply R. right. auto.
  - assert (observing (advance T w).2 = []) as ->
      by (destruct R as (? & ? & ? & ? & ? & ? & ? & ? & ?); assumption).
    right. auto.
  - assert (exists o, observing (advance T w).2 = [o]) as [o ->]
      by (destruct R as (? & o & ? & ? & ? & ? & ? & ? & ? & ? & ?); eauto).
    cbn [fold_left].
    destruct (armed_handleMutation _ D R) as (R' & L' & D').
    right. rewrite L' . auto.
Qed.

Lemma owned_step w o : owned w -> owned (step w o).
Proof.
  destruct o; cbn [step]; auto using owned_start, owned_stop, owned_reconfigure,
    owned_mutation, owned_advance.
Qed.

Lemma owned_play ops : forall w, owned w -> owned (play ops w).
Proof.
  induction ops as [|o ops IH]; intros w H; [exact H|].
  cbn [play fold_left]. apply IH, owned_step, H.
Qed.

(** X7. Ownership: after any sequence of [start], [stop], [reconfigure],
    batches of mutations and waiting, from a new detector, the host holds
    for the detector only what its fields name: nothing when it is not
    running; when it is running, nothing, or the timeout timer alone, or
    the timeout timer, the quiet timer and the attached observer.  So at
    most two timers are pending and one observer attached, none when the
    detector is not running, and a completed detector is not running. *)
Theorem detector_owns_its_resources (c : config) (bd : bool)
    (sel : string -> lookup) (t0 : Z) (ops : list op) :
  let w := play ops (create c, new_page t0 bd sel) in
  owned w /\
  (length (timers w.2) <= 2)%nat /\ (length (observing w.2) <= 1)%nat /\
  (isRunning w = false -> timers w.2 = [] /\ observing w.2 = []) /\
  (hasCompleted w = true -> isRunning w = false).
Proof.
  assert (owned (create c, new_page t0 bd sel)) as H0
    by (left; repeat split; reflexivity).
  apply (owned_play ops) in H0. cbv zeta. split; [exact H0|].
  unfold isRunning, hasCompleted.
  destruct H0 as [[L R]|(L & D & H)].
  - destruct R as (_ & _ & _ & -> & ->). cbn. repeat split; auto.
  - rewrite L, D.
    destruct H as [(_ & _ & _ & -> & ->)
      | [(? & ? & ? & _ & _ & _ & -> & -> & _)
        | (? & ? & ? & ? & ? & _ & _ & _ & -> & -> & _)]];
      cbn; repeat split; auto; discriminate.
Qed.

Lemma detector_owns_its_resources_witness :
  let w := play [Start (Some 1%nat) None; Mutation 100; Wait 20000;
                 Start (Some 2%nat) (Some 3%nat); Mutation 20100; Stop]
             (create default_config, new_page 0 true (fun _ => Absent)) in
  timers w.2 = [] /\ observing w.2 = [].
Proof.
  intros w.
  destruct (detector_owns_its_resources default_config true (fun _ => Absent) 0
              [Start (Some 1%nat) None; Mutation 100; Wait 20000;
               Start (Some 2%nat) (Some 3%nat); Mutation 20100; Stop])
    as (_ & _ & _ & H & _).
  apply H. reflexivity.
Defined.

(** ** Runs that end at once, or never observe *)

Lemma ascending_last t ts : ascending t ts -> t <= List.last ts t.
Proof.
  revert t. induction ts as [|a ts IH]; intros t H; [cbn; lia|].
  destruct H as [H1 H2]. specialize (IH a H2). rewrite last_cons. lia.
Qed.

Lemma mutations_app ts ts' (w : world) :
  mutations (ts ++ ts') w = mutations ts' (mutations ts w).
Proof. apply fold_left_app. Qed.

Section Absorbing.
Variables (c : config) (f g : option callback).
Variables (bd : bool) (sel : string -> lookup) (t0 : Z).

Lemma mutation_settled fr t tr T :
  mutation T (settled c f g bd sel fr t tr) = settled c f g bd sel fr (Z.max t T) tr.
Proof. reflexivity. Qed.

Lemma advance_settled fr t tr T :
  advance T (settled c f g bd sel fr t tr) = settled c f g bd sel fr (Z.max t T) tr.
Proof. reflexivity. Qed.

Lemma mutations_settled ts : forall fr t tr,
  exists t', mutations ts (settled c f g bd sel fr t tr) = settled c f g bd sel fr t' tr.
Proof.
  induction ts as [|a ts IH]; intros fr t tr; [now exists t|].
  rewrite mutations_cons, mutation_settled. apply IH.
Qed.

Lemma mutation_settles q fr tq t tr T :
  (1 < q)%positive ->
  t <= tq + quietPeriod c -> tq + quietPeriod c <= T ->
  tq + quietPeriod c < t0 + maxWaitTime c ->
  mutation T (watching c f g bd sel t0 q fr tq t tr)
  = settled c f g bd sel fr T (tr ++ complete_effects f (tq + quietPeriod c)).
Proof.
  intros. unfold mutation. rewrite advance_settles by lia. reflexivity.
Qed.


Hypothesis Hmw : 0 <= maxWaitTime c < 2 ^ 31.

Lemma started_thrown :
  target c (new_page t0 bd sel) = BadSelector ->
  start f g (create c, new_page t0 bd sel) = (thrown c f g bd sel t0 t0, Threw).
Proof.
  intros Ht. unfold start. run_model.
  change (target c _) with (target c (new_page t0 bd sel)). rewrite Ht.
  unfold thrown. rewrite timeout_delay_in_range by lia. reflexivity.
Qed.

Lemma advance_thrown t T :
  t <= t0 + maxWaitTime c ->
  advance T (thrown c f g bd sel t0 t)
  = if T <? t0 + maxWaitTime c then thrown c f g bd sel t0 (Z.max t T)
    else expired c f g bd sel 3%positive T (timeout_effects f g (t0 + maxWaitTime c)).
Proof.
  intros Ht. unfold advance, thrown. cbn [snd timers length run_timers].
  unfold next_due, soonest. cbn [timers fold_left due].
  destruct (Z.ltb_spec T (t0 + maxWaitTime c)) as [H|H];
    destruct (Z.leb_spec (t0 + maxWaitTime c) T); try lia.
  - reflexivity.
  - unfold run_timer. cbn [job tid due]. unfold handleTimeout, cleanup.
    run_model. rewrite !Pos.eqb_refl. cbn. rewrite !Z.max_r by lia.
    unfold expired, timeout_effects, terminal.
    destruct g, f; run_model; rewrite ?Z.max_r by lia; reflexivity.
Qed.

Lemma mutation_thrown t T :
  t <= t0 + maxWaitTime c ->
  mutation T (thrown c f g bd sel t0 t) = advance T (thrown c f g bd sel t0 t).
Proof.
  intros Ht. unfold mutation. rewrite advance_thrown by exact Ht.
  destruct (T <? _); reflexivity.
Qed.

(** With no observer attached, only the timeout is left to happen. *)
Lemma mutations_thrown ts : forall t,
  t <= t0 + maxWaitTime c -> ascending t ts ->
  (List.last ts t <= t0 + maxWaitTime c /\
   mutations ts (thrown c f g bd sel t0 t) = thrown c f g bd sel t0 (List.last ts t))
  \/
  (t0 + maxWaitTime c <= List.last ts t /\
   exists t', mutations ts (thrown c f g bd sel t0 t)
     = expired c f g bd sel 3%positive t' (timeout_effects f g (t0 + maxWaitTime c))).
Proof.
  induction ts as [|a ts IH]; intros t Ht Hs.
  - left. split; [exact Ht | reflexivity].
  - destruct Hs as [Ha Hs]. rewrite mutations_cons, last_cons, mutation_thrown by exact Ht.
    rewrite advance_thrown by exact Ht.
    pose proof (ascending_last _ _ Hs) as Hge.
    destruct (Z.ltb_spec a (t0 + maxWaitTime c)) as [H|H].
    + rewrite Z.max_r by lia. apply IH; [lia | exact Hs].
    + right. split; [lia|].
      destruct (mutations_expired c f g bd sel ts 3%positive a
                  (timeout_effects f g (t0 + maxWaitTime c))) as [t' E].
      exists t'. exact E.
Qed.

(** With [maxWaitTime] at most [quietPeriod] no quiet timer can come due
    before the deadline. *)
Lemma mutations_short_deadline
    (Hle : maxWaitTime c <= quietPeriod c) (Hqb : quietPeriod c < 2 ^ 31) ts :
  forall q fr tq,
  (1 < q)%positive -> (q < fr)%positive ->
  t0 <= tq <= t0 + maxWaitTime c -> ascending tq ts ->
  (List.last ts tq <= t0 + maxWaitTime c /\
   exists q' fr', (1 < q')%positive /\ (q' < fr')%positive /\
     mutations ts (watching c f g bd sel t0 q fr tq tq [])
     = watching c f g bd sel t0 q' fr' (List.last ts tq) (List.last ts tq) [])
  \/
  (t0 + maxWaitTime c <= List.last ts tq /\
   exists fr' t',
     mutations ts (watching c f g bd sel t0 q fr tq tq [])
     = expired c f g bd sel fr' t' (timeout_effects f g (t0 + maxWaitTime c))).
Proof.
  assert (0 <= quietPeriod c < 2 ^ 31) as Hq0 by lia.
  induction ts as [|a ts IH]; intros q fr tq Hq Hfr Hd Hs.
  - left. split; [cbn; lia|]. exists q, fr. auto.
  - destruct Hs as [Ha Hs]. rewrite last_cons, mutations_cons.
    pose proof (ascending_last _ _ Hs) as Hge.
    destruct (Z.lt_ge_cases a (t0 + maxWaitTime c)) as [Hlt|Hge'].
    + rewrite mutation_watching by (assumption || lia).
      apply (IH fr (Pos.succ fr) a); auto; lia.
    + right. split; [lia|]. rewrite mutation_expires by (assumption || lia).
      destruct (mutations_expired c f g bd sel ts fr a
                  (timeout_effects f g (t0 + maxWaitTime c))) as [t' E].
      exists fr, t'. exact E.
Qed.

End Absorbing.



(** X2. When [document.querySelector] throws on the configured selector,
    [start] throws after it has set the flags and armed the deadline: the
    detector counts as running and observes nothing, and for mutations at
    times that do not go back the only callback is the terminal one,
    [maxWaitTime] after the call, [maxWaitTime] being a delay the host's
    timers take as it is (below [2^31] ms). *)
Theorem start_with_malformed_selector_still_times_out
    (c : config) (f : callback) (g : option callback)
    (bd : bool) (sel : string -> lookup) (t0 : Z) (ts : list Z) (T : Z) :
  target c (new_page t0 bd sel) = BadSelector ->
  0 <= maxWaitTime c < 2 ^ 31 ->
  ascending t0 ts -> List.last ts t0 <= T ->
  (start (Some f) g (create c, new_page t0 bd sel)).2 = Threw /\
  isRunning (started c (Some f) g (new_page t0 bd sel)) = true /\
  observing (started c (Some f) g (new_page t0 bd sel)).2 = [] /\
  calls (advance T (mutations ts (started c (Some f) g (new_page t0 bd sel)))).2
  = if T <? t0 + maxWaitTime c then []
    else [(t0 + maxWaitTime c,
           match g with
           | Some g' => CallOnTimeout g'
           | None => CallOnComplete f
           end)].
Proof.
  intros Ht Hmw Hs HT. unfold started. rewrite started_thrown by assumption.
  repeat split. cbn [fst].
  destruct (mutations_thrown c (Some f) g bd sel t0 ts t0) as [[Hl ->]|[Hl [t' ->]]];
    auto; try lia.
  - rewrite advance_thrown by assumption.
    destruct (T <? _); [reflexivity | destruct g; reflexivity].
  - rewrite advance_expired.
    destruct (Z.ltb_spec T (t0 + maxWaitTime c)); [lia|]. destruct g; reflexivity.
Qed.

Lemma start_with_malformed_selector_still_times_out_witness :
  calls (advance 10000 (mutations [100; 700]
           (started (Config 500 10000 (Some "div[")) (Some 1%nat) None
              (new_page 0 true (fun _ => BadSelector))))).2
  = [(10000, CallOnComplete 1%nat)].
Proof.
  apply (start_with_malformed_selector_still_times_out
           (Config 500 10000 (Some "div[")) 1%nat None true (fun _ => BadSelector)
           0 [100; 700] 10000); cbn; try reflexivity; lia.
Defined.

(** X3. Once the quiet timer has fired, later mutations and later time
    change nothing: [onComplete] has been called once, at the last early
    mutation plus [quietPeriod], the detector has completed and holds
    neither timer nor observer.  Both periods are delays the host's timers
    take as they are (below [2^31] ms). *)
Theorem mutations_after_quiet_completion_are_ignored
    (c : config) (f : callback) (g : option callback)
    (bd : bool) (sel : string -> lookup) (t0 : Z) (ts : list Z)
    (t' : Z) (late : list Z) (T : Z) :
  target c (new_page t0 bd sel) = Present ->
  0 <= quietPeriod c < 2 ^ 31 ->
  maxWaitTime c < 2 ^ 31 ->
  spaced (quietPeriod c) t0 ts ->
  List.last ts t0 + quietPeriod c < t0 + maxWaitTime c ->
  List.last ts t0 + quietPeriod c < t' ->
  let w := advance T (mutations (ts ++ t' :: late)
                        (started c (Some f) g (new_page t0 bd sel))) in
  calls w.2 = [(List.last ts t0 + quietPeriod c, CallOnComplete f)] /\
  hasCompleted w = true /\ isRunning w = false /\
  timers w.2 = [] /\ observing w.2 = [].
Proof.
  intros Htarget Hqp Hmw' Hs Hd Hlate.
  pose proof (spaced_last _ _ _ Hs) as Hge.
  assert (Hmw : 0 <= maxWaitTime c < 2 ^ 31) by lia.
  rewrite started_watching by assumption.
  rewrite mutations_app.
  destruct (mutations_watching c (Some f) g bd sel t0 Hqp ts 3 4 t0)
    as (q & fr & Hq & Hfr & ->); try lia; auto.
  rewrite mutations_cons, mutation_settles by lia.
  destruct (mutations_settled c (Some f) g bd sel late fr t'
              ([] ++ complete_effects (Some f) (List.last ts t0 + quietPeriod c)))
    as [t'' ->].
  rewrite advance_settled. cbv zeta. repeat split; reflexivity.
Qed.

Lemma mutations_after_quiet_completion_are_ignored_witness :
  calls (advance 20000 (mutations ([0; 100; 300] ++ 900 :: [950; 5000])
           (started default_config (Some 1%nat) (Some 2%nat)
              (new_page 0 true (fun _ => Absent))))).2
  = [(800, CallOnComplete 1%nat)].
Proof.
  apply (mutations_after_quiet_completion_are_ignored default_config 1%nat
           (Some 2%nat) true (fun _ => Absent) 0 [0; 100; 300] 900 [950; 5000] 20000);
    cbn; try reflexivity; lia.
Defined.

(** X4. With [maxWaitTime <= quietPeriod], both delays the host's timers
    take as they are (below [2^31] ms), the quiet timer never wins:
    whatever the mutations, the only callback is the terminal one,
    [maxWaitTime] after the call of [start]. *)
Theorem quiet_path_unreachable_under_short_deadline
    (c : config) (f : callback) (g : option callback)
    (bd : bool) (sel : string -> lookup) (t0 : Z) (ts : list Z) (T : Z) :
  target c (new_page t0 bd sel) = Present ->
  0 <= maxWaitTime c <= quietPeriod c ->
  quietPeriod c < 2 ^ 31 ->
  ascending t0 ts -> List.last ts t0 <= T ->
  calls (advance T (mutations ts (started c (Some f) g (new_page t0 bd sel)))).2
  = if T <? t0 + maxWaitTime c then []
    else [(t0 + maxWaitTime c,
           match g with
           | Some g' => CallOnTimeout g'
           | None => CallOnComplete f
           end)].
Proof.
  intros Htarget [Hmw0 Hle] Hqb Hs HT.
  assert (Hqp : 0 <= quietPeriod c < 2 ^ 31) by lia.
  assert (Hmw : 0 <= maxWaitTime c < 2 ^ 31) by lia.
  rewrite started_watching by assumption.
  destruct (mutations_short_deadline c (Some f) g bd sel t0 Hmw Hle Hqb ts 3 4 t0)
    as [(Hl & q & fr & Hq & Hfr & ->)|(Hl & fr & t' & ->)]; try lia; auto.
  - pose proof (ascending_last _ _ Hs) as Hge.
    destruct (Z.ltb_spec T (t0 + maxWaitTime c)).
    + rewrite advance_watching by lia. reflexivity.
    + rewrite advance_expires by lia. destruct g; reflexivity.
  - rewrite advance_expired.
    destruct (Z.ltb_spec T (t0 + maxWaitTime c)); [lia|]. destruct g; reflexivity.
Qed.

Lemma quiet_path_unreachable_under_short_deadline_witness :
  calls (advance 5000 (mutations []
           (started (Config 500 300 None) (Some 1%nat) None
              (new_page 0 true (fun _ => Absent))))).2
  = [(300, CallOnComplete 1%nat)].
Proof.
  apply (quiet_path_unreachable_under_short_deadline (Config 500 300 None) 1%nat
           None true (fun _ => Absent) 0 [] 5000); cbn; try reflexivity; lia.
Defined.

(** X5. [reconfigure] on a running detector changes neither the detector
    nor its timers or observer; it logs one error, and every later run
    leaves the same detector and calls the same callbacks at the same
    times. *)
Theorem reconfigure_rejected_while_running (o : options) (w : world) :
  isLoading w.1 = true ->
  let w' := reconfigure o w in
  w'.1 = w.1 /\ timers w'.2 = timers w.2 /\ observing w'.2 = observing w.2 /\
  trace w'.2
  = trace w.2 ++ [(now w.2, ConsoleError "Cannot reconfigure while loader is running")] /\
  (forall Ts T,
     (advance T (mutations Ts w')).1 = (advance T (mutations Ts w)).1 /\
     calls (advance T (mutations Ts w')).2 = calls (advance T (mutations Ts w)).2).
Proof.
  intros H. unfold reconfigure. rewrite H.
  repeat match goal with |- _ /\ _ => split end; try reflexivity.
  intros Ts T.
  assert (same_run w
            (on_host (emit (ConsoleError "Cannot reconfigure while loader is running")) w))
    as S.
  { clear. destruct w as [l [n fr ts os tr b s]]. unfold same_run, calls. cbn.
    rewrite List.filter_app. cbn. rewrite app_nil_r. auto 10. }
  apply (same_run_mutations Ts), (same_run_advance T) in S.
  destruct S as (S1 & _ & _ & _ & _ & _ & _ & S2). auto.
Qed.

Lemma reconfigure_rejected_while_running_witness :
  let w := started default_config (Some 1%nat) None (new_page 0 true (fun _ => Absent)) in
  let w' := reconfigure (Options (Some 50) (Some 60) None) w in
  cfg w'.1 = default_config /\
  calls (advance 10000 (mutations [0; 100; 300] w')).2 = [(800, CallOnComplete 1%nat)].
Proof.
  intros w w'.
  destruct (reconfigure_rejected_while_running (Options (Some 50) (Some 60) None) w eq_refl)
    as (H1 & _ & _ & _ & H2).
  subst w'. split; [now rewrite H1|].
  destruct (H2 [0; 100; 300] 10000) as [_ H3]. rewrite H3.
  vm_compute. reflexivity.
Defined.

Lemma target_stop c w : target c (stop w).2 = target c w.2.
Proof.
  unfold stop. destruct (isLoading w.1); cbn [negb]; [|reflexivity].
  destruct w as [[c0 ob q t l d f g] h]. unfold cleanup.
  destruct ob, q, t; reflexivity.
Qed.

Lemma target_handleTimeout c w : target c (handleTimeout w).2 = target c w.2.
Proof.
  unfold handleTimeout. destruct (isComplete w.1); [reflexivity|].
  destruct w as [[c0 ob q t l d f g] h]. unfold cleanup.
  destruct ob, q, t, g, f; reflexivity.
Qed.

Lemma cfg_cleanup w : cfg (cleanup w).1 = cfg w.1.
Proof.
  destruct w as [[c0 ob q t l d f g] h]. unfold cleanup. destruct ob, q, t; reflexivity.
Qed.

(** A start that is accepted and finds its target. *)
Lemma start_accepted f0 g0 w :
  isLoading w.1 = false -> target (cfg w.1) w.2 = Present ->
  let w' := (start f0 g0 w).1 in
  isLoading w'.1 = true /\ isComplete w'.1 = false /\
  onComplete w'.1 = f0 /\ onTimeout w'.1 = g0.
Proof.
  destruct w as [[c ob q t l d f g] [n fr ts os tr b s]].
  cbn [fst snd isLoading cfg].
  intros -> Ht. unfold start. run_model.
  change (target c _) with (target c (MkHost n fr ts os tr b s)). rewrite Ht.
  unfold resetQuietTimer, observe.
  destruct (existsb _ _); destruct q; run_model; repeat split; reflexivity.
Qed.

(** X6. After the deadline handler has run on a running detector whose
    target exists, the detector still counts as running: [start] is
    rejected (detector, timers and callbacks called unchanged) and so is
    [reconfigure]; [stop] returns it to idle, and a [start] after that is
    accepted with its new callbacks. *)
Theorem timed_out_detector_refuses_start_until_stopped (w : world) :
  isLoading w.1 = true -> isComplete w.1 = false ->
  target (cfg w.1) w.2 = Present ->
  let w1 := handleTimeout w in
  isRunning w1 = true /\
  (forall f g, ((start f g w1).1).1 = w1.1 /\
               timers (start f g w1).1.2 = timers w1.2 /\
               calls (start f g w1).1.2 = calls w1.2) /\
  (forall o, (reconfigure o w1).1 = w1.1) /\
  state_of (stop w1) = Idle /\
  (forall f g,
     let w3 := (start f g (stop w1)).1 in
     isRunning w3 = true /\ onComplete w3.1 = f /\ onTimeout w3.1 = g).
Proof.
  intros L D Ht. cbv zeta.
  destruct (handleTimeout_keeps_flags w) as [L1 D1]. rewrite L in L1. rewrite D in D1.
  assert (cfg (handleTimeout w).1 = cfg w.1) as C1.
  { unfold handleTimeout. rewrite D.
    set (w0 := on_host (emit _) w). pose proof (cfg_cleanup w0) as E.
    destruct (onTimeout _); [|destruct (onComplete _)]; exact E. }
  split; [exact L1|]. split.
  { intros f g. unfold start. rewrite L1. cbn [fst snd on_host].
    repeat split. unfold calls, emit. cbn [trace with_trace].
    rewrite List.filter_app. cbn. apply app_nil_r. }
  split.
  { intros o. unfold reconfigure. now rewrite L1. }
  assert (isLoading (stop (handleTimeout w)).1 = false
          /\ isComplete (stop (handleTimeout w)).1 = false
          /\ cfg (stop (handleTimeout w)).1 = cfg w.1) as (L2 & D2 & C2).
  { unfold stop. rewrite L1. cbn [negb on_host on_loader fst with_flags isLoading
      isComplete cfg]. rewrite cfg_cleanup. auto. }
  split; [unfold state_of; now rewrite L2, D2|].
  intros f g.
  destruct (start_accepted f g (stop (handleTimeout w)) L2) as (? & ? & ? & ?); auto.
  rewrite C2, target_stop, target_handleTimeout. exact Ht.
Qed.

Lemma timed_out_detector_refuses_start_until_stopped_witness :
  let w := mutations (busy 100)
             (started default_config (Some 1%nat) (Some 2%nat)
                (new_page 0 true (fun _ => Absent))) in
  let w1 := handleTimeout w in
  isRunning w1 = true /\
  ((start (Some 3%nat) None w1).1).1 = w1.1 /\
  isRunning (start (Some 3%nat) None (stop w1)).1 = true.
Proof.
  intros w w1.
  destruct (timed_out_detector_refuses_start_until_stopped w eq_refl eq_refl eq_refl)
    as (H1 & H2 & _ & _ & H3).
  split; [exact H1|]. split; [apply H2 | apply H3].
Defined.

(** * Properties of the adapter and the launcher *)

Import Dom Regex Chub Launcher.

Local Close Scope Z_scope.

(** ** The matcher *)




Lemma firstn_taken {A} (taken rest : list A) :
  firstn (length (taken ++ rest) - length rest) (taken ++ rest) = taken.
Proof.
  rewrite length_app.
  replace (length taken + length rest - length rest)%nat with (length taken) by lia.
  rewrite firstn_app, Nat.sub_diag, firstn_all. cbn. apply app_nil_r.
Qed.


(** ** Searching from [lastIndex] *)

Lemma search_unfold r i s :
  search r i s
  = match match_at r s with
    | Some (rest, caps) => Some (i, rest, caps)
    | None => match s with [] => None | _ :: s' => search r (S i) s' end
    end.
Proof. destruct s; reflexivity. Qed.


Lemma search_none r : forall s i,
  (forall j, match_at r (skipn j s) = None) -> search r i s = None.
Proof.
  induction s as [|a s IH]; intros i H; rewrite search_unfold.
  - pose proof (H O) as H0. cbn [skipn] in H0. now rewrite H0.
  - pose proof (H O) as H0. cbn [skipn] in H0. rewrite H0.
    apply IH. intros j. apply (H (S j)).
Qed.






(** ** Trees and selectors *)

Lemma node_ind (P : node -> Prop) :
  (forall t c x s o ks, Forall P ks -> P (Node t c x s o ks)) ->
  forall n, P n.
Proof.
  intros H. fix IH 1. intros [t c x s o ks]. apply H.
  induction ks as [|k ks IHks]; constructor; [apply IH | exact IHks].
Qed.

Lemma find_in_unfold sel anc n :
  find_in sel anc n
  = if matches sel anc n then Some []
    else find_among sel (n :: anc) O (children n).
Proof.
  destruct n as [t c x s o ks]. cbn [find_in children].
  destruct (matches sel anc (Node t c x s o ks)); [reflexivity|].
  generalize (Node t c x s o ks :: anc). intros up.
  generalize O. induction ks as [|k ks IH]; intros i; [reflexivity|].
  cbn [find_among]. now rewrite IH.
Qed.

Lemma find_among_app sel anc ks ks' : forall i,
  find_among sel anc i (ks ++ ks')
  = match find_among sel anc i ks with
    | Some p => Some p
    | None => find_among sel anc (i + length ks) ks'
    end.
Proof.
  induction ks as [|k ks IH]; intros i; cbn [find_among app length].
  - now rewrite Nat.add_0_r.
  - destruct (find_in sel anc k); [reflexivity|].
    rewrite IH. now replace (S i + length ks) with (i + S (length ks)) by lia.
Qed.

Lemma matches_class c anc n : matches [ByClass c] anc n = has_class c n.
Proof. unfold matches. cbn. apply andb_true_r. Qed.

Lemma has_class_with_children c ks n :
  has_class c (with_children ks n) = has_class c n.
Proof. now destruct n. Qed.

Lemma children_with_children ks n : children (with_children ks n) = ks.
Proof. now destruct n. Qed.

Lemma tag_with_children ks n : tag (with_children ks n) = tag n.
Proof. now destruct n. Qed.

Lemma className_with_children ks n : className (with_children ks n) = className n.
Proof. now destruct n. Qed.

Lemma with_children_twice ks ks' n :
  with_children ks (with_children ks' n) = with_children ks n.
Proof. now destruct n. Qed.

Lemma mentions_unfold c n :
  mentions c n = has_class c n || existsb (mentions c) (children n).
Proof. now destruct n. Qed.

(** A tree that does not mention a class has no match for its selector. *)
Lemma find_in_unmentioned c : forall n anc,
  mentions c n = false -> find_in [ByClass c] anc n = None.
Proof.
  induction n as [t k x s o ks IH] using node_ind. intros anc H.
  rewrite find_in_unfold, matches_class. cbn [mentions children] in *.
  apply orb_false_iff in H. destruct H as [-> H]. cbn [children].
  generalize O. generalize (Node t k x s o ks :: anc). clear -IH H.
  induction ks as [|k' ks IHks]; intros anc i; [reflexivity|].
  cbn [existsb] in H. apply orb_false_iff in H. destruct H as [H1 H2].
  inversion IH; subst. cbn [find_among]. rewrite (H3 anc H1). auto.
Qed.

Lemma find_among_unmentioned c ks anc i :
  existsb (mentions c) ks = false -> find_among [ByClass c] anc i ks = None.
Proof.
  revert i. induction ks as [|k ks IH]; intros i H; [reflexivity|].
  cbn [existsb] in H. apply orb_false_iff in H. destruct H as [H1 H2].
  cbn [find_among]. rewrite (find_in_unmentioned c k anc H1). auto.
Qed.

Lemma existsb_insert {A} (g : A -> bool) x : forall ks i,
  existsb g ks = false -> g x = false -> existsb g (<[i:=x]> ks) = false.
Proof.
  induction ks as [|k ks IH]; intros i H Hx; [reflexivity|].
  cbn [existsb] in H. apply orb_false_iff in H. destruct H as [H1 H2].
  destruct i; cbn; [now rewrite Hx | now rewrite H1, IH].
Qed.

Lemma existsb_lookup {A} (g : A -> bool) (ks : list A) i k :
  existsb g ks = false -> ks !! i = Some k -> g k = false.
Proof.
  revert i. induction ks as [|k' ks IH]; intros i H Hk; [discriminate|].
  cbn [existsb] in H. apply orb_false_iff in H. destruct H as [H1 H2].
  destruct i; cbn in Hk; [congruence | eauto].
Qed.

(** Editing one element cannot bring in a class that the edit itself does
    not introduce. *)
Lemma mentions_update_at c f :
  (forall t, mentions c t = false -> mentions c (f t) = false) ->
  forall p n, mentions c n = false -> mentions c (update_at p f n) = false.
Proof.
  intros Hf. induction p as [|i p IH]; intros n H; [now apply Hf|].
  cbn [update_at]. destruct (children n !! i) as [k|] eqn:E; [|exact H].
  rewrite mentions_unfold in H |- *. apply orb_false_iff in H. destruct H as [H1 H2].
  rewrite has_class_with_children, children_with_children, H1. cbn [orb].
  apply existsb_insert; [exact H2|]. apply IH. eapply existsb_lookup; eauto.
Qed.

Lemma mentions_appendChild c b t :
  mentions c t = false -> mentions c b = false ->
  mentions c (appendChild b t) = false.
Proof.
  intros H Hb. unfold appendChild. rewrite mentions_unfold in H |- *.
  apply orb_false_iff in H. destruct H as [H1 H2].
  rewrite has_class_with_children, children_with_children, H1, existsb_app, H2.
  cbn. now rewrite Hb.
Qed.

(** ** The injected getter *)

Lemma mentions_injectButton url t :
  mentions "undefined" t = false ->
  mentions "undefined" (injectButton url t) = false.
Proof.
  intros H. unfold injectButton. destruct (querySelector _ t); [exact H|].
  apply mentions_appendChild; [exact H | reflexivity].
Qed.

Lemma injected_unmentioned b : mentions "undefined" b = false -> injected b = false.
Proof.
  intros H. unfold injected, querySelector.
  change (css (class_selector "injectClass")) with [ByClass "undefined"].
  rewrite mentions_unfold in H. apply orb_false_iff in H.
  now rewrite find_among_unmentioned.
Qed.

(** C9. [CONFIG] has no [injectClass], so the getter's selector is
    [.undefined].  On every document in which no element has the class
    [undefined] the getter returns false, and it still returns false after
    [injectButton] has run on any element of that document, whatever the
    URL. *)
Theorem injected_getter_stays_false (body : node) :
  mentions "undefined" body = false ->
  CONFIG !! "injectClass" = None /\
  class_selector "injectClass" = ".undefined" /\
  injected body = false /\
  forall p url, injected (update_at p (injectButton url) body) = false.
Proof.
  intros H. repeat split; try reflexivity.
  - now apply injected_unmentioned.
  - intros p url. apply injected_unmentioned, mentions_update_at; [|exact H].
    intros t. apply mentions_injectButton.
Qed.

(** On the sample page: the getter is false before and after the button is
    appended to the insertion target, which then does hold a button. *)
Lemma injected_getter_stays_false_witness :
  injected sample = false /\
  injected (update_at [0; 0; 0] (injectButton "u") sample) = false /\
  (exists t,
     at_path [0; 0; 0] (update_at [0; 0; 0] (injectButton "u") sample) = Some t /\
     has_button t = true).
Proof.
  destruct (injected_getter_stays_false sample eq_refl) as (_ & _ & H1 & H2).
  split; [exact H1 | split; [apply H2 |]].
  eexists. split; reflexivity.
Defined.

(** ** The insertion target stays where it is *)

Lemma same_label_refl n : same_label n n.
Proof. split; reflexivity. Qed.

Lemma same_label_sym a b : same_label a b -> same_label b a.
Proof. intros [? ?]. now split. Qed.

Lemma labels_sym anc anc' :
  Forall2 same_label anc anc' -> Forall2 same_label anc' anc.
Proof.
  induction 1; constructor; [now apply same_label_sym | assumption].
Qed.

Lemma matches_simple_label s a b :
  same_label a b -> matches_simple s a = matches_simple s b.
Proof.
  intros [Ht Hc]. destruct s; cbn; unfold has_class; now rewrite ?Ht, ?Hc.
Qed.

Lemma matches_chain_labels outer : forall anc anc',
  Forall2 same_label anc anc' -> matches_chain outer anc = matches_chain outer anc'.
Proof.
  induction outer as [|s outer IH]; intros anc anc' H; [reflexivity|].
  induction H as [|a a' anc anc' Ha H IHH]; [reflexivity|].
  cbn [matches_chain] in *. rewrite (matches_simple_label s a a' Ha).
  destruct (matches_simple s a'); [now apply IH | exact IHH].
Qed.

Lemma matches_labels sel anc anc' n n' :
  Forall2 same_label anc anc' -> same_label n n' ->
  matches sel anc n = matches sel anc' n'.
Proof.
  intros H Hn. unfold matches. destruct (rev sel) as [|s outer]; [reflexivity|].
  now rewrite (matches_simple_label s n n' Hn), (matches_chain_labels outer anc anc' H).
Qed.

Lemma find_in_labels sel : forall n anc anc',
  Forall2 same_label anc anc' -> find_in sel anc n = find_in sel anc' n.
Proof.
  induction n as [t c x s o ks IH] using node_ind. intros anc anc' H.
  rewrite !find_in_unfold.
  rewrite (matches_labels sel anc anc' _ _ H (same_label_refl _)).
  destruct (matches sel anc' _); [reflexivity|]. cbn [children].
  assert (Forall2 same_label (Node t c x s o ks :: anc) (Node t c x s o ks :: anc'))
    as H' by (constructor; [apply same_label_refl | exact H]).
  revert H'. generalize (Node t c x s o ks :: anc) (Node t c x s o ks :: anc').
  intros up up' H'. generalize O.
  induction IH as [|k ks Hk _ IHks]; intros i; [reflexivity|].
  cbn [find_among]. rewrite (Hk up up' H'). now rewrite IHks.
Qed.

Lemma find_among_labels sel anc anc' ks : forall i,
  Forall2 same_label anc anc' -> find_among sel anc i ks = find_among sel anc' i ks.
Proof.
  intros i H. revert i. induction ks as [|k ks IH]; intros i; [reflexivity|].
  cbn [find_among]. now rewrite (find_in_labels sel k anc anc' H), IH.
Qed.

(** Where a search among siblings found its match. *)
Lemma find_among_some sel anc ks : forall i0 p,
  find_among sel anc i0 ks = Some p ->
  exists j k q, p = (i0 + j) :: q /\ ks !! j = Some k /\
    find_in sel anc k = Some q /\ find_among sel anc i0 (take j ks) = None.
Proof.
  induction ks as [|k ks IH]; intros i0 p H; [discriminate|].
  cbn [find_among] in H. destruct (find_in sel anc k) as [q|] eqn:E.
  - inversion H; subst. exists O, k, q. rewrite Nat.add_0_r. auto.
  - destruct (IH _ _ H) as (j & k' & q & -> & Hk & Hq & Hnone).
    exists (S j), k', q. repeat split; auto; [f_equal; lia|].
    cbn [take find_among]. now rewrite E.
Qed.

Lemma insert_take_drop_node (ks : list node) j k x :
  ks !! j = Some k -> <[j:=x]> ks = take j ks ++ x :: drop (S j) ks.
Proof. intros H. apply insert_take_drop. eapply lookup_lt_Some, H. Qed.

(** Growing the parent of the first match leaves the first match in
    place. *)
Lemma find_in_grow_stable sel f (Hf : grows f) i : forall q n anc anc',
  Forall2 same_label anc anc' ->
  find_in sel anc n = Some (q ++ [i]) ->
  find_in sel anc' (update_at q f n) = Some (q ++ [i]).
Proof.
  induction q as [|j q IH]; intros n anc anc' Hanc H; rewrite find_in_unfold in H.
  - cbn [update_at app] in *. destruct (Hf n) as [Hl [extra He]].
    rewrite find_in_unfold.
    rewrite (matches_labels sel anc' anc (f n) n (labels_sym _ _ Hanc) Hl).
    destruct (matches sel anc n); [discriminate|].
    rewrite He, find_among_app.
    assert (Forall2 same_label (f n :: anc') (n :: anc)) as Hup
      by (constructor; [exact Hl | now apply labels_sym]).
    rewrite (find_among_labels sel _ _ (children n) O Hup).
    now rewrite H.
  - cbn [app] in H. destruct (matches sel anc n) eqn:M; [discriminate|].
    destruct (find_among_some _ _ _ _ _ H) as (j' & k & q' & E & Hk & Hq & Hnone).
    cbn in E. inversion E; subst j' q'. clear E.
    cbn [update_at]. rewrite Hk.
    set (n' := with_children _ n).
    assert (same_label n' n) as Hl
      by (split; [apply tag_with_children | apply className_with_children]).
    assert (Forall2 same_label (n :: anc) (n' :: anc')) as Hanc'
      by (constructor; [now apply same_label_sym | exact Hanc]).
    rewrite find_in_unfold.
    rewrite (matches_labels sel anc' anc n' n (labels_sym _ _ Hanc) Hl), M.
    unfold n' at 2. rewrite children_with_children.
    rewrite (insert_take_drop_node _ _ _ _ Hk), find_among_app.
    rewrite <- (find_among_labels sel (n :: anc) (n' :: anc') (take j (children n)) O Hanc').
    rewrite Hnone. cbn [find_among].
    rewrite (IH k (n :: anc) (n' :: anc') Hanc' Hq).
    rewrite length_take_le by (apply Nat.lt_le_incl; eapply lookup_lt_Some, Hk).
    reflexivity.
Qed.

Lemma getInsertTarget_stable f (Hf : grows f) b p :
  getInsertTarget b = Some p -> getInsertTarget (update_at p f b) = Some p.
Proof.
  unfold getInsertTarget, document_querySelector.
  destruct (find_in _ [] b) as [[|i r]|] eqn:E; try discriminate.
  intros H. assert (p = removelast (i :: r)) as -> by congruence. clear H.
  assert (i :: r <> []) as Hne by discriminate.
  rewrite (app_removelast_last O Hne) in E.
  rewrite (find_in_grow_stable _ f Hf _ _ b [] [] (List.Forall2_nil _) E).
  rewrite <- (app_removelast_last O Hne). reflexivity.
Qed.

Lemma update_at_compose f g : forall p n,
  update_at p f (update_at p g n) = update_at p (fun t => f (g t)) n.
Proof.
  induction p as [|i p IH]; intros n; [reflexivity|].
  cbn [update_at]. destruct (children n !! i) as [k|] eqn:E.
  - rewrite children_with_children.
    rewrite list_lookup_insert_eq by (eapply lookup_lt_Some, E).
    rewrite with_children_twice, list_insert_insert_eq, IH. reflexivity.
  - now rewrite E.
Qed.

Lemma update_at_ext f g :
  (forall t, f t = g t) -> forall p n, update_at p f n = update_at p g n.
Proof.
  intros H. induction p as [|i p IH]; intros n; [apply H|].
  cbn [update_at]. destruct (children n !! i); [now rewrite IH | reflexivity].
Qed.

(** ** injectButton *)

Lemma injectButton_present url t : has_button t = true -> injectButton url t = t.
Proof.
  unfold has_button, injectButton. now destruct (querySelector _ t).
Qed.

Lemma has_button_appendChild url t : has_button (appendChild (btn url) t) = true.
Proof.
  unfold has_button, querySelector, appendChild. rewrite children_with_children.
  rewrite find_among_app.
  destruct (find_among _ _ 0 (children t)); [reflexivity|].
  cbn [find_among]. rewrite find_in_unfold.
  replace (matches _ _ (btn url)) with true; [reflexivity|].
  symmetry. apply matches_class.
Qed.

Lemma has_button_injectButton url t : has_button (injectButton url t) = true.
Proof.
  unfold injectButton. destruct (querySelector _ t) eqn:E.
  - unfold has_button. now rewrite E.
  - apply has_button_appendChild.
Qed.

Lemma injectButton_twice u u' t :
  injectButton u' (injectButton u t) = injectButton u t.
Proof. apply injectButton_present, has_button_injectButton. Qed.

Lemma injectButton_grows u : grows (injectButton u).
Proof.
  intros t. unfold injectButton. destruct (querySelector _ t).
  - split; [apply same_label_refl|]. exists []. now rewrite app_nil_r.
  - unfold appendChild. split.
    + split; [apply tag_with_children | apply className_with_children].
    + exists [btn u]. apply children_with_children.
Qed.

Lemma inject_all_present urls : forall t,
  has_button t = true -> inject_all urls t = t.
Proof.
  induction urls as [|u urls IH]; intros t H; [reflexivity|].
  cbn [inject_all fold_left]. rewrite injectButton_present by exact H. now apply IH.
Qed.

(** One poll keeps the document within: untouched, or after one
    [injectButton] on the insertion target of the document [b0]. *)
Lemma attempt_changes_once b0 pg :
  (body pg = b0 \/
   exists p u, getInsertTarget b0 = Some p /\ body pg = update_at p (injectButton u) b0) ->
  body (attempt pg).2 = b0 \/
  exists p u,
    getInsertTarget b0 = Some p /\
    body (attempt pg).2 = update_at p (injectButton u) b0.
Proof.
  intros IH. unfold attempt. destruct (injected (body pg)); [exact IH|].
  destruct (getCardImageUrl (loc pg) (chub pg)) as [url a].
  destruct (getInsertTarget (body pg)) as [p'|] eqn:Et; [|exact IH].
  destruct url as [u'|]; [|exact IH]. cbn [snd body].
  destruct IH as [E|(p & u & Hp & E)].
  - right. exists p', u'. rewrite E in *. auto.
  - right. exists p, u. split; [exact Hp|].
    rewrite E in Et.
    rewrite (getInsertTarget_stable _ (injectButton_grows u) _ _ Hp) in Et.
    inversion Et; subst p'. rewrite E, update_at_compose.
    apply update_at_ext. intros t. apply injectButton_twice.
Qed.

Lemma polls_change_once b0 visits : forall b,
  (b = b0 \/
   exists p u, getInsertTarget b0 = Some p /\ b = update_at p (injectButton u) b0) ->
  polls visits b = b0 \/
  exists p u,
    getInsertTarget b0 = Some p /\ polls visits b = update_at p (injectButton u) b0.
Proof.
  induction visits as [|v visits IH]; intros b H; [exact H|].
  cbn [polls fold_left]. apply IH.
  apply (attempt_changes_once b0 (Page v.1 b v.2)). exact H.
Qed.

(** C6. Injection at most once.  An attempt on a target that already holds
    an element of class [cceditor-jump-btn] leaves the target as it is.
    Over any number of [injectButton] calls on one target, whatever the
    URLs, what is appended to the target is at most one element, and it has
    that class.  And over any number of polls of the launcher on a document,
    at whatever locations and adapter states, the document is either
    untouched or has had one [injectButton] on its insertion target. *)
Theorem injection_at_most_once (target : node) (urls : list string) :
  (forall u t, has_button t = true -> injectButton u t = t) /\
  (has_button target = true -> inject_all urls target = target) /\
  (exists added,
     inject_all urls target = with_children (children target ++ added) target /\
     length added <= 1 /\
     (forall b, In b added -> has_class "cceditor-jump-btn" b = true)) /\
  (forall visits b,
     polls visits b = b \/
     exists p u,
       getInsertTarget b = Some p /\ polls visits b = update_at p (injectButton u) b).
Proof.
  split; [intros u t; apply injectButton_present|].
  split; [apply inject_all_present|].
  split; [|intros visits b; apply polls_change_once; now left].
  destruct urls as [|u urls].
  - exists []. rewrite app_nil_r. destruct target; cbn.
    repeat split; auto; intros b [].
  - cbn [inject_all fold_left]. fold (inject_all urls (injectButton u target)).
    rewrite inject_all_present by apply has_button_injectButton.
    unfold injectButton. destruct (querySelector _ target).
    + exists []. rewrite app_nil_r. destruct target; cbn.
      repeat split; auto; intros b [].
    + exists [btn u]. repeat split; auto.
      intros b [<-|[]]. reflexivity.
Qed.

Lemma injection_at_most_once_witness :
  let target := el "div" "hdr title" [el "h3" "" []] in
  inject_all ["u1"; "u2"; "u3"] target
  = el "div" "hdr title" [el "h3" "" []; btn "u1"] /\
  inject_all ["u2"; "u3"] (injectButton "u1" target) = injectButton "u1" target.
Proof.
  intros target.
  destruct (injection_at_most_once (injectButton "u1" target) ["u2"; "u3"])
    as (_ & H & _).
  split; [reflexivity | apply H; reflexivity].
Defined.

(** ** waitForDom *)

Section Polling.
Context {St : Type}.
Variable cb : St -> bool * St.

Lemma run_cb_keeps_polling s w :
  is_done w = false ->
  let w' := (run_cb cb (s, w)).2.2 in
  is_done w' = false /\ interval_active w' = interval_active w /\
  observer_connected w' = observer_connected w /\ attempts w' = S (attempts w).
Proof.
  intros H. unfold run_cb. rewrite H. destruct (cb s) as [[|] s']; cbn; auto.
Qed.

Lemma deliveries_keep_polling es : forall s w,
  is_done w = false -> interval_active w = true -> observer_connected w = true ->
  let w' := (deliveries cb es (s, w)).2 in
  is_done w' = false /\ interval_active w' = true /\
  observer_connected w' = true /\ attempts w' = attempts w + length es.
Proof.
  induction es as [|e es IH]; intros s w Hd Hi Ho.
  - cbn. auto with lia.
  - cbn [deliveries fold_left].
    assert (deliver cb (s, w) e = (run_cb cb (s, w)).2) as ->
      by (destruct e; cbn; now rewrite ?Hi, ?Ho).
    destruct (run_cb_keeps_polling s w Hd) as (Hd' & Hi' & Ho' & Ha').
    destruct (run_cb cb (s, w)) as [r [s' w']]. cbn in *.
    destruct (IH s' w') as (? & ? & ? & Hn); try congruence.
    fold (deliveries cb es (s', w')). repeat split; auto.
    rewrite Hn, Ha'. lia.
Qed.

(** What [done] would do if it were called: set the flag, stop the interval
    and the observer, after which no signal runs the callback. *)
Lemma done_stops w :
  done w = Waiter true false false (attempts w) /\
  forall s e, deliver cb (s, done w) e = (s, done w).
Proof.
  split; [reflexivity|]. intros s [|]; reflexivity.
Qed.

End Polling.

(** C5. Retries after success.  For every callback, also one that has
    returned true, the closure state of [waitForDom] after the first attempt
    and any signals [es] of the interval and the observer is: [is_done]
    false, the interval running, the observer connected, and the callback
    executed once for the first attempt and once more for every signal. *)
Theorem polling_goes_on_after_success {St : Type} (cb : St -> bool * St)
    (s : St) (es : list signal) :
  let w := (deliveries cb es (waitForDom cb s)).2 in
  is_done w = false /\ interval_active w = true /\ observer_connected w = true /\
  attempts w = S (length es).
Proof.
  unfold waitForDom.
  destruct (run_cb_keeps_polling cb s (Waiter false true true O) eq_refl)
    as (Hd & Hi & Ho & Ha).
  destruct (run_cb cb (s, Waiter false true true O)) as [r [s' w']]. cbn in *.
  destruct (deliveries_keep_polling cb es s' w' Hd Hi Ho) as (? & ? & ? & Hn).
  repeat split; auto. cbn in Hn. rewrite Hn, Ha. reflexivity.
Qed.

(** On the sample page at a character URL: [fire] makes one attempt, which
    fails because [match()] has advanced the regular expression; the first
    tick of the interval injects the button; the two ticks after it run the
    callback again. *)
Example fire_keeps_polling :
  let pg := Page (Location "chub.ai" "/characters/alice/my-card_1") sample fresh_adapter in
  let st := deliveries attempt [Tick; Tick; Tick]
              ((fire pg).1, Waiter false true true 1) in
  (fire pg).2 = Some (Waiter false true true 1) /\
  body (fire pg).1 = sample /\
  body st.1 = update_at [0; 0; 0] (injectButton
    "https://avatars.charhub.io/avatars/alice/my-card_1/chara_card_v2.png") sample /\
  st.2 = Waiter false true true 4.
Proof. cbv zeta. repeat split; vm_compute; reflexivity. Qed.

(** * Further properties of the launcher *)

Import Editor.

(** ** Pathnames of character pages *)

Lemma list_ascii_app (a b : string) :
  list_ascii_of_string (a +:+ b) = list_ascii_of_string a ++ list_ascii_of_string b.
Proof.
  induction a as [|x a IH]; [reflexivity|].
  change (list_ascii_of_string (String x a +:+ b))
    with (x :: list_ascii_of_string (a +:+ b)).
  now rewrite IH.
Qed.

Lemma all_chars_Forall p s :
  all_chars p s = true -> Forall (fun a => p a = true) (list_ascii_of_string s).
Proof.
  induction s as [|a s IH]; cbn; intros H; constructor;
    apply andb_true_iff in H; destruct H; auto.
Qed.

Lemma segment_inv s :
  segment s = true ->
  list_ascii_of_string s <> [] /\
  Forall (fun a => word a = true) (list_ascii_of_string s).
Proof.
  unfold segment. intros H. apply andb_true_iff in H. destruct H as [Hn Hw].
  split; [|now apply all_chars_Forall]. destruct s; [discriminate | cbn; discriminate].
Qed.

Lemma strip_prefix_here l s : strip_prefix l (l ++ s) = Some s.
Proof.
  induction l as [|c l IH]; cbn; [reflexivity|]. now rewrite Ascii.eqb_refl.
Qed.

(** The loop takes a whole run when the rest of the pattern accepts what
    follows the run. *)
Lemma plus_loop_greedy cls k caps r : forall taken rest,
  Forall (fun a => cls a = true) taken ->
  match rest with [] => True | a :: _ => cls a = false end ->
  k rest caps = Some r ->
  plus_loop cls (taken ++ rest) caps k = Some r.
Proof.
  induction taken as [|a taken IH]; intros rest Hall Hrest Hk.
  - cbn. destruct rest as [|b rest]; cbn; [exact Hk | now rewrite Hrest].
  - inversion Hall; subst. cbn. rewrite H1. now rewrite (IH rest H2 Hrest Hk).
Qed.

Lemma run_plus_greedy cls k caps r taken rest :
  taken <> [] -> Forall (fun a => cls a = true) taken ->
  match rest with [] => True | a :: _ => cls a = false end ->
  k rest caps = Some r ->
  run (Plus cls) (taken ++ rest) caps k = Some r.
Proof.
  intros Hne Hall Hrest Hk. destruct taken as [|a taken]; [congruence|].
  inversion Hall; subst. cbn. rewrite H1. now apply plus_loop_greedy.
Qed.

(** The pattern matches a character path at its head and captures its two
    segments. *)
Lemma match_at_character_path uid cid rest :
  uid <> [] -> cid <> [] ->
  Forall (fun a => word a = true) uid -> Forall (fun a => word a = true) cid ->
  match rest with [] => True | a :: _ => word a = false end ->
  match_at pattern
    (list_ascii_of_string "/characters/" ++ uid ++ list_ascii_of_string "/" ++ cid ++ rest)
  = Some (rest, [uid; cid]).
Proof.
  intros Hu Hc Huw Hcw Hrest. unfold match_at, pattern. cbn [run].
  rewrite strip_prefix_here.
  apply run_plus_greedy; auto; [reflexivity|].
  rewrite firstn_taken. rewrite strip_prefix_here.
  apply run_plus_greedy; auto.
  now rewrite firstn_taken.
Qed.

Lemma length_list_ascii s : length (list_ascii_of_string s) = String.length s.
Proof. induction s as [|a s IH]; cbn; [reflexivity | now rewrite IH]. Qed.

Lemma ends_segment_inv r :
  ends_segment r = true ->
  match list_ascii_of_string r with [] => True | a :: _ => word a = false end.
Proof. destruct r as [|a r]; cbn; [auto | apply negb_true_iff]. Qed.

Lemma exec_at_head s rest caps :
  match_at pattern s = Some (rest, caps) ->
  exec pattern s 0 = (Some caps, length s - length rest).
Proof.
  intros H. unfold exec. cbn [Nat.ltb Nat.leb skipn].
  change (skipn 0 s) with s. rewrite search_unfold, H. reflexivity.
Qed.

Lemma exec_no_match s i :
  (forall j, i <= j -> match_at pattern (skipn j s) = None) ->
  exec pattern s i = (None, 0).
Proof.
  intros H. unfold exec. destruct (length s <? i); [reflexivity|].
  rewrite search_none; [reflexivity|].
  intros j. rewrite skipn_skipn. apply H. lia.
Qed.

Lemma match_at_nil : match_at pattern [] = None.
Proof. reflexivity. Qed.

Lemma character_path_calls (loc : location) (U C R : string) :
  hostname loc = "chub.ai" ->
  pathname loc = "/characters/" +:+ U +:+ "/" +:+ C +:+ R ->
  segment U = true -> segment C = true -> ends_segment R = true ->
  let e := 12 + String.length U + 1 + String.length C in
  match_ loc 0 = (true, e) /\
  getCardImageUrl loc 0 = (Some (avatar_url U C), e) /\
  (R = "" -> getCardImageUrl loc e = (None, 0) /\ match_ loc e = (false, 0)).
Proof.
  intros Hh Hp HU HC HR e.
  destruct (segment_inv U HU) as [Un Uw]. destruct (segment_inv C HC) as [Cn Cw].
  pose proof (ends_segment_inv R HR) as Rw.
  pose proof (match_at_character_path _ _ _ Un Cn Uw Cw Rw) as M.
  assert (list_ascii_of_string (pathname loc)
          = list_ascii_of_string "/characters/" ++ list_ascii_of_string U
              ++ list_ascii_of_string "/" ++ list_ascii_of_string C
              ++ list_ascii_of_string R) as Es
    by (rewrite Hp, !list_ascii_app; reflexivity).
  assert (length (list_ascii_of_string (pathname loc)) - length (list_ascii_of_string R) = e)
    as El.
  { rewrite Es, !length_app, !length_list_ascii. cbn. unfold e. lia. }
  pose proof (exec_at_head _ _ _ M) as X. rewrite <- Es, El in X.
  unfold match_, test, getCardImageUrl. rewrite Hh. cbn [String.eqb Ascii.eqb].
  replace (("chub.ai" =? "chub.ai")%string) with true by reflexivity.
  rewrite X. split; [reflexivity|]. split.
  - unfold truthy_at. cbn [nth_error].
    destruct (list_ascii_of_string U) as [|u0 U'] eqn:EU; [congruence|].
    destruct (list_ascii_of_string C) as [|c0 C'] eqn:EC; [congruence|].
    rewrite <- EU, <- EC, !string_of_list_ascii_of_string. reflexivity.
  - intros ->.
    assert (e = length (list_ascii_of_string (pathname loc))) as Ee
      by (rewrite <- El; cbn; lia).
    rewrite exec_no_match; [split; reflexivity|].
    intros j Hj. rewrite skipn_all2 by lia. apply match_at_nil.
Qed.

(** X8. On chub.ai, for a pathname [/characters/U/C] followed by nothing
    or by a character outside [[\w_\-]], with [U] and [C] not empty and
    made of such characters: from [lastIndex] 0, [match] answers true and
    [getCardImageUrl] answers the avatar URL of [U] and [C], each leaving
    [lastIndex] just after [C]; when nothing follows [C], the next call
    of either finds nothing and resets [lastIndex] to 0. *)
Theorem getCardImageUrl_on_character_path (loc : location) (U C R : string) :
  hostname loc = "chub.ai" ->
  pathname loc = "/characters/" +:+ U +:+ "/" +:+ C +:+ R ->
  segment U = true -> segment C = true -> ends_segment R = true ->
  let e := 12 + String.length U + 1 + String.length C in
  match_ loc 0 = (true, e) /\
  getCardImageUrl loc 0 = (Some (avatar_url U C), e) /\
  (R = "" -> getCardImageUrl loc e = (None, 0) /\ match_ loc e = (false, 0)).
Proof. apply character_path_calls. Qed.

Lemma getCardImageUrl_on_character_path_witness :
  let loc := Location "chub.ai" "/characters/alice/my-card_1/edit" in
  getCardImageUrl loc 0
  = (Some "https://avatars.charhub.io/avatars/alice/my-card_1/chara_card_v2.png", 27).
Proof.
  intros loc.
  destruct (getCardImageUrl_on_character_path loc "alice" "my-card_1" "/edit"
              eq_refl eq_refl eq_refl eq_refl eq_refl) as (_ & H & _).
  exact H.
Defined.

(** ** Pages the launcher leaves alone *)

(** X9. On another host, or on a pathname the pattern matches nowhere,
    [fire] starts no polling and leaves the document as it is; [lastIndex]
    is kept on another host (the pattern is not tried) and is 0 after a
    failed search. *)
Theorem fire_skips_other_pages (pg : page) :
  hostname (loc pg) <> "chub.ai" \/
  no_match_from 0 (list_ascii_of_string (pathname (loc pg))) ->
  exists a,
    fire pg = (Page (loc pg) (body pg) a, None) /\
    (hostname (loc pg) <> "chub.ai" -> a = chub pg) /\
    (hostname (loc pg) = "chub.ai" -> a = 0).
Proof.
  intros H. unfold fire, match_.
  destruct (String.eqb_spec (hostname (loc pg)) "chub.ai") as [E|E].
  - destruct H as [H|H]; [congruence|].
    unfold test. rewrite exec_no_match by (intros j _; apply H; lia).
    exists 0. repeat split; auto. congruence.
  - exists (chub pg). repeat split; auto. congruence.
Qed.

Lemma fire_skips_other_pages_witness :
  fire (Page (Location "chub.ai" "/search") sample 7)
  = (Page (Location "chub.ai" "/search") sample 0, None).
Proof.
  assert (no_match_from 0 (list_ascii_of_string "/search")) as Hno.
  { intros j _. do 8 (destruct j as [|j]; [reflexivity|]).
    rewrite skipn_all2 by (cbn; lia). reflexivity. }
  destruct (fire_skips_other_pages (Page (Location "chub.ai" "/search") sample 7)
              (or_intror Hno)) as (a & -> & _ & Ha).
  now rewrite (Ha eq_refl).
Defined.

(** A tree that mentions a class has a match for its selector. *)
Lemma find_in_mentioned c : forall n anc,
  mentions c n = true -> exists p, find_in [ByClass c] anc n = Some p.
Proof.
  induction n as [t k x s o ks IH] using node_ind. intros anc H.
  rewrite find_in_unfold, matches_class. rewrite mentions_unfold in H.
  destruct (has_class c _); [eauto|]. cbn [orb children] in *.
  generalize O. generalize (Node t k x s o ks :: anc). clear -IH H.
  induction ks as [|k' ks IHks]; intros anc i; [discriminate|].
  inversion IH; subst. cbn [find_among existsb] in *.
  destruct (mentions c k') eqn:M.
  - destruct (H2 anc eq_refl) as [p ->]. eauto.
  - destruct (find_in [ByClass c] anc k'); [eauto|]. apply IHks; auto.
Qed.

Lemma find_among_mentioned c ks anc i :
  existsb (mentions c) ks = true -> exists p, find_among [ByClass c] anc i ks = Some p.
Proof.
  revert i. induction ks as [|k ks IH]; intros i H; [discriminate|].
  cbn [existsb find_among] in *. destruct (mentions c k) eqn:M.
  - destruct (find_in_mentioned c k anc M) as [p ->]. eauto.
  - destruct (find_in [ByClass c] anc k); [eauto|]. apply IH, H.
Qed.

Lemma deliveries_cons {St} (cb : St -> bool * St) e es st :
  deliveries cb (e :: es) st = deliveries cb es (deliver cb st e).
Proof. reflexivity. Qed.

Lemma deliveries_inert {St} (cb : St -> bool * St) (s : St) :
  cb s = (false, s) -> forall es w, (deliveries cb es (s, w)).1 = s.
Proof.
  intros Hs. induction es as [|e es IH]; intros w; [reflexivity|].
  rewrite deliveries_cons.
  assert (exists w', deliver cb (s, w) e = (s, w')) as [w' ->]; [|apply IH].
  unfold deliver, run_cb. cbn [snd fst]. rewrite Hs.
  destruct e; destruct (interval_active w), (observer_connected w), (is_done w);
    cbn; eauto.
Qed.

(** X11. The guard of [fire] looks for the class [undefined]: when an
    element below [body] has that class, [injected] is true, the attempt
    does nothing, and neither [fire] nor any later signal changes the
    document. *)
Theorem launcher_never_injects_beside_class_undefined (pg : page) (es : list signal) :
  existsb (mentions "undefined") (children (body pg)) = true ->
  injected (body pg) = true /\
  attempt pg = (false, pg) /\
  (deliveries attempt es (waitForDom attempt pg)).1 = pg /\
  body (fire pg).1 = body pg.
Proof.
  intros H.
  assert (injected (body pg) = true) as Hi.
  { unfold injected, querySelector.
    change (css (class_selector "injectClass")) with [ByClass "undefined"].
    now destruct (find_among_mentioned "undefined" _ [body pg] 0 H) as [p ->]. }
  assert (forall q, body q = body pg -> attempt q = (false, q)) as Ha
    by (intros q Eq; unfold attempt; now rewrite Eq, Hi).
  split; [exact Hi|]. split; [now apply Ha|]. split.
  - unfold waitForDom, run_cb. cbn [is_done]. rewrite (Ha pg eq_refl). cbn [snd].
    apply deliveries_inert, Ha. reflexivity.
  - unfold fire. destruct (match_ (loc pg) (chub pg)) as [[|] a]; [|reflexivity].
    unfold waitForDom, run_cb. cbn [is_done]. now rewrite (Ha (Page _ _ a) eq_refl).
Qed.

Lemma launcher_never_injects_beside_class_undefined_witness :
  let doc := el "body" "" [el "main" "" [el "div" "undefined" [el "h3" "" []]]] in
  let pg := Page (Location "chub.ai" "/characters/alice/my-card_1") doc 0 in
  getInsertTarget doc = Some [0; 0] /\
  (deliveries attempt [Tick; Tick; Mutated] (waitForDom attempt pg)).1 = pg.
Proof.
  intros doc pg.
  destruct (launcher_never_injects_beside_class_undefined pg [Tick; Tick; Mutated] eq_refl)
    as (_ & _ & H & _).
  split; [reflexivity | exact H].
Defined.

(** ** Once the button is in *)

Lemma attempt_after_injection b0 p u pg :
  getInsertTarget b0 = Some p ->
  body pg = update_at p (injectButton u) b0 ->
  body (attempt pg).2 = body pg.
Proof.
  intros Hp E. unfold attempt. destruct (injected (body pg)); [reflexivity|].
  destruct (getCardImageUrl (loc pg) (chub pg)) as [url a].
  destruct (getInsertTarget (body pg)) as [p'|] eqn:Et; [|reflexivity].
  destruct url as [u'|]; [|reflexivity]. cbn [snd body].
  rewrite E in Et. rewrite (getInsertTarget_stable _ (injectButton_grows u) _ _ Hp) in Et.
  inversion Et; subst p'. rewrite E, update_at_compose.
  apply update_at_ext. intros t. apply injectButton_twice.
Qed.

(** X14. A document in which the button has been injected at the
    insertion target stays as it is under any further attempts, whatever
    the locations visited and the state of the pattern. *)
Theorem injected_button_outlives_navigation
    (b0 : node) (p : path) (u : string)
    (visits : list (location * adapter)) :
  getInsertTarget b0 = Some p ->
  polls visits (update_at p (injectButton u) b0) = update_at p (injectButton u) b0.
Proof.
  intros Hp. induction visits as [|v visits IH]; [reflexivity|].
  cbn [polls fold_left].
  rewrite (attempt_after_injection b0 p u (Page v.1 _ v.2) Hp eq_refl).
  exact IH.
Qed.

Lemma injected_button_outlives_navigation_witness :
  polls [(Location "chub.ai" "/characters/bob/other", 0);
         (Location "chub.ai" "/characters/bob/other", 0)]
    (update_at [0; 0; 0] (injectButton "first") sample)
  = update_at [0; 0; 0] (injectButton "first") sample.
Proof.
  apply (injected_button_outlives_navigation sample [0; 0; 0] "first" _ eq_refl).
Defined.

(** ** From navigation to button *)

Section CharacterPage.
Variables (l : location) (U C : string) (b : node) (p : path).
Hypothesis Hhost : hostname l = "chub.ai".
Hypothesis Hpath : pathname l = "/characters/" +:+ U +:+ "/" +:+ C +:+ "".
Hypothesis HU : segment U = true.
Hypothesis HC : segment C = true.
Hypothesis Htarget : getInsertTarget b = Some p.
Hypothesis Hclean : mentions "undefined" b = false.

Local Abbreviation e := (12 + String.length U + 1 + String.length C).
Local Abbreviation b1 := (update_at p (injectButton (avatar_url U C)) b).

Lemma attempt_with_match_spent : attempt (Page l b e) = (false, Page l b 0).
Proof.
  destruct (character_path_calls l U C "" Hhost Hpath HU HC eq_refl) as (_ & _ & H).
  destruct (H eq_refl) as [H1 _].
  unfold attempt. cbn [body loc chub]. rewrite (injected_unmentioned b Hclean), H1, Htarget.
  reflexivity.
Qed.

Lemma attempt_injects : attempt (Page l b 0) = (true, Page l b1 e).
Proof.
  destruct (character_path_calls l U C "" Hhost Hpath HU HC eq_refl) as (_ & H & _).
  unfold attempt. cbn [body loc chub]. rewrite (injected_unmentioned b Hclean), H, Htarget.
  reflexivity.
Qed.

Lemma injected_b1 : injected b1 = false.
Proof.
  apply injected_unmentioned, mentions_update_at; [|exact Hclean].
  intros t. apply mentions_injectButton.
Qed.

Lemma attempt_after a :
  a = 0 \/ a = e ->
  exists ok a', attempt (Page l b1 a) = (ok, Page l b1 a') /\ (a' = 0 \/ a' = e).
Proof.
  destruct (character_path_calls l U C "" Hhost Hpath HU HC eq_refl) as (_ & H0 & H).
  destruct (H eq_refl) as [He _].
  intros Ha. unfold attempt. cbn [body loc chub]. rewrite injected_b1.
  rewrite (getInsertTarget_stable _ (injectButton_grows _) _ _ Htarget).
  destruct Ha as [->| ->].
  - rewrite H0. exists true, e. split; [|now right].
    rewrite update_at_compose.
    rewrite (update_at_ext _ (injectButton (avatar_url U C))
               (fun t => injectButton_twice _ _ t)). reflexivity.
  - rewrite He. exists false, 0. split; [reflexivity | now left].
Qed.

Lemma deliveries_after es : forall a w,
  a = 0 \/ a = e ->
  body (deliveries attempt es (Page l b1 a, w)).1 = b1.
Proof.
  induction es as [|s es IH]; intros a w Ha; [reflexivity|].
  rewrite deliveries_cons.
  destruct (attempt_after a Ha) as (ok & a' & E & Ha').
  assert (exists a'' w', deliver attempt (Page l b1 a, w) s = (Page l b1 a'', w')
                         /\ (a'' = 0 \/ a'' = e)) as (a'' & w' & -> & Ha'').
  { unfold deliver, run_cb. cbn [snd fst]. rewrite E.
    destruct s; destruct (interval_active w), (observer_connected w), (is_done w),
      ok; cbn; eauto. }
  now apply IH.
Qed.

End CharacterPage.

Lemma append_empty (s : string) : s +:+ "" = s.
Proof.
  induction s as [|a s IH]; [reflexivity|].
  change (String a s +:+ "") with (String a (s +:+ "")). now rewrite IH.
Qed.

(** X10. On a character page with an insertion target and no element of
    class [undefined], [fire] itself injects nothing (its [match] has
    moved [lastIndex] past the only match, so the attempt's
    [getCardImageUrl] finds none) and leaves the polling on; the first
    signal after it injects the button for the card at the target, and
    later signals leave that document as it is. *)
Theorem launcher_injects_at_first_signal
    (l : location) (U C : string) (b : node) (p : path)
    (s : signal) (es : list signal) :
  hostname l = "chub.ai" ->
  pathname l = "/characters/" +:+ U +:+ "/" +:+ C ->
  segment U = true -> segment C = true ->
  getInsertTarget b = Some p ->
  mentions "undefined" b = false ->
  fire (Page l b 0) = (Page l b 0, Some (Waiter false true true 1)) /\
  body (deliveries attempt (s :: es) (Page l b 0, Waiter false true true 1)).1
  = update_at p (injectButton (avatar_url U C)) b.
Proof.
  intros Hh Hp HU HC Ht Hc. rewrite <- (append_empty C) in Hp.
  destruct (character_path_calls l U C "" Hh Hp HU HC eq_refl) as (Hm & _ & _).
  split.
  - unfold fire. cbn [loc chub body]. rewrite Hm.
    unfold waitForDom, run_cb. cbn [is_done].
    rewrite (attempt_with_match_spent l U C b p Hh Hp HU HC Ht Hc). reflexivity.
  - rewrite deliveries_cons.
    assert (deliver attempt (Page l b 0, Waiter false true true 1) s
            = (Page l (update_at p (injectButton (avatar_url U C)) b)
                 (12 + String.length U + 1 + String.length C),
               Waiter false true true 2)) as ->.
    { unfold deliver, run_cb. cbn [snd fst is_done interval_active observer_connected].
      rewrite (attempt_injects l U C b p Hh Hp HU HC Ht Hc). destruct s; reflexivity. }
    apply (deliveries_after l U C b p Hh Hp HU HC Ht Hc). now right.
Qed.

Lemma launcher_injects_at_first_signal_witness :
  let l := Location "chub.ai" "/characters/alice/my-card_1" in
  body (deliveries attempt [Mutated; Tick; Tick] (Page l sample 0, Waiter false true true 1)).1
  = update_at [0; 0; 0]
      (injectButton "https://avatars.charhub.io/avatars/alice/my-card_1/chara_card_v2.png")
      sample.
Proof.
  intros l.
  destruct (launcher_injects_at_first_signal l "alice" "my-card_1" sample [0; 0; 0]
              Mutated [Tick; Tick] eq_refl eq_refl eq_refl eq_refl eq_refl eq_refl)
    as [_ H].
  exact H.
Defined.

(** ** The editor URL *)

Lemma all_chars_app p (a b : string) :
  all_chars p (a +:+ b) = all_chars p a && all_chars p b.
Proof.
  induction a as [|x a IH]; [reflexivity|].
  change (all_chars p (String x a +:+ b)) with (p x && all_chars p (a +:+ b)).
  rewrite IH. cbn. now rewrite andb_assoc.
Qed.

Lemma encode_byte_safe a :
  all_chars (fun x => unreserved x || Ascii.eqb x "%") (encode_byte a) = true.
Proof.
  destruct a as [[] [] [] [] [] [] [] []]; vm_compute; reflexivity.
Qed.

(** X12. The text [encodeURIComponent] returns is made of unreserved
    characters and [%] only; it holds none of [& = ? # / : +] and no
    space, so the image URL cannot end or split the [load_url]
    parameter. *)
Theorem encodeURIComponent_leaves_no_delimiter (s : string) :
  all_chars (fun x => unreserved x || Ascii.eqb x "%") (encodeURIComponent s) = true /\
  all_chars (fun x => negb (existsb (Ascii.eqb x) (list_ascii_of_string "&=?#/:+ ")))
    (encodeURIComponent s) = true.
Proof.
  assert (forall x, unreserved x || Ascii.eqb x "%" = true ->
            negb (existsb (Ascii.eqb x) (list_ascii_of_string "&=?#/:+ ")) = true) as Hsafe.
  { intros x. destruct x as [[] [] [] [] [] [] [] []]; vm_compute; auto. }
  assert (forall t, all_chars (fun x => unreserved x || Ascii.eqb x "%") t = true ->
            all_chars (fun x => negb (existsb (Ascii.eqb x)
                                        (list_ascii_of_string "&=?#/:+ "))) t = true) as Hall.
  { induction t as [|x t IH]; [reflexivity|]. cbn [all_chars]. intros H.
    apply andb_true_iff in H. destruct H as [H1 H2]. now rewrite (Hsafe x H1), IH. }
  assert (all_chars (fun x => unreserved x || Ascii.eqb x "%") (encodeURIComponent s) = true)
    as H.
  { induction s as [|a s IH]; [reflexivity|]. cbn [encodeURIComponent].
    now rewrite all_chars_app, encode_byte_safe, IH. }
  split; [exact H | apply Hall, H].
Qed.

Lemma append_assoc3 (a b c : string) : (a +:+ b) +:+ c = a +:+ (b +:+ c).
Proof.
  induction a as [|x a IH]; [reflexivity|].
  change ((String x a +:+ b) +:+ c) with (String x ((a +:+ b) +:+ c)).
  now rewrite IH.
Qed.

Lemma encodeURIComponent_app (a b : string) :
  encodeURIComponent (a +:+ b) = encodeURIComponent a +:+ encodeURIComponent b.
Proof.
  induction a as [|x a IH]; [reflexivity|].
  change (encodeURIComponent (String x a +:+ b))
    with (encode_byte x +:+ encodeURIComponent (a +:+ b)).
  rewrite IH. cbn [encodeURIComponent]. now rewrite append_assoc3.
Qed.

Lemma word_unreserved a : Chub.word a = true -> unreserved a = true.
Proof. destruct a as [[] [] [] [] [] [] [] []]; vm_compute; auto. Qed.

Lemma encodeURIComponent_word s :
  all_chars Chub.word s = true -> encodeURIComponent s = s.
Proof.
  induction s as [|a s IH]; [reflexivity|]. cbn [all_chars encodeURIComponent].
  intros H. apply andb_true_iff in H. destruct H as [H1 H2].
  unfold encode_byte. rewrite (word_unreserved a H1), (IH H2). reflexivity.
Qed.

(** X13. On a target without the button, [injectButton] appends exactly
    one element, of class [cceditor-jump-btn], and a click on it opens
    the editor's address with [load_url] set to the percent-encoded avatar
    URL of the card. *)
Theorem injected_button_opens_the_card_in_the_editor (U C : string) (target : node) :
  segment U = true -> segment C = true -> has_button target = false ->
  exists button,
    children (injectButton (Chub.avatar_url U C) target) = children target ++ [button] /\
    has_class "cceditor-jump-btn" button = true /\
    click button
    = Some ("https://lenml.github.io/CCEditor/?load_url="
            +:+ "https%3A%2F%2Favatars.charhub.io%2Favatars%2F" +:+ U
            +:+ "%2F" +:+ C +:+ "%2Fchara_card_v2.png").
Proof.
  intros HU HC Hb. exists (btn (Chub.avatar_url U C)). split; [|split].
  - unfold injectButton. unfold has_button in Hb.
    destruct (querySelector _ target); [discriminate|].
    apply children_with_children.
  - reflexivity.
  - unfold segment in HU, HC.
    apply andb_true_iff in HU. destruct HU as [_ HU].
    apply andb_true_iff in HC. destruct HC as [_ HC].
    change (click (btn (Chub.avatar_url U C)))
      with (Some (buildEditorUrl (Chub.avatar_url U C))).
    unfold buildEditorUrl, Chub.avatar_url.
    rewrite !encodeURIComponent_app, (encodeURIComponent_word U HU),
      (encodeURIComponent_word C HC).
    reflexivity.
Qed.

Lemma injected_button_opens_the_card_in_the_editor_witness :
  exists button,
    children (injectButton (Chub.avatar_url "alice" "my-card_1") (el "div" "" []))
    = [button] /\
    click button
    = Some "https://lenml.github.io/CCEditor/?load_url=https%3A%2F%2Favatars.charhub.io%2Favatars%2Falice%2Fmy-card_1%2Fchara_card_v2.png".
Proof.
  destruct (injected_button_opens_the_card_in_the_editor "alice" "my-card_1"
              (el "div" "" []) eq_refl eq_refl eq_refl) as (button & H1 & _ & H2).
  exists button. split; [exact H1 | exact H2].
Defined.

(** ** The insertion target is an element of the document *)

Lemma find_in_sound sel : forall n anc q,
  find_in sel anc n = Some q ->
  exists h anc', at_path q n = Some h /\ matches sel anc' h = true.
Proof.
  induction n as [t c x s o ks IH] using node_ind. intros anc q.
  rewrite find_in_unfold. destruct (matches sel anc _) eqn:M.
  - intros H; inversion H; subst. eauto.
  - intros H. destruct (find_among_some _ _ _ _ _ H) as (j & k & q' & -> & Hk & Hq & _).
    cbn [children] in Hk. cbn [at_path children Nat.add]. rewrite Hk.
    rewrite Forall_forall in IH. apply (IH k) in Hq; [exact Hq|].
    eapply list_elem_of_lookup_2, Hk.
Qed.

Lemma at_path_app q i n h :
  at_path (q ++ [i]) n = Some h ->
  exists t, at_path q n = Some t /\ children t !! i = Some h.
Proof.
  revert n. induction q as [|j q IH]; intros n; cbn [app at_path].
  - destruct (children n !! i) eqn:E; [|discriminate]. intros H; inversion H; subst. eauto.
  - destruct (children n !! j); [apply IH | discriminate].
Qed.

Lemma at_path_update_at f : forall q n t,
  at_path q n = Some t -> at_path q (update_at q f n) = Some (f t).
Proof.
  induction q as [|j q IH]; intros n t; cbn [at_path update_at].
  - intros H; inversion H; subst. reflexivity.
  - destruct (children n !! j) as [k|] eqn:E; [|discriminate]. intros H.
    rewrite children_with_children.
    rewrite list_lookup_insert_eq by (eapply lookup_lt_Some, E). now apply IH.
Qed.

(** X15. The insertion target [getInsertTarget] returns is an element of
    the document that has an [h3] among its children, so the injection
    reaches it: after [injectButton] at that path the element there holds
    the button. *)
Theorem getInsertTarget_is_the_parent_of_a_heading (b : node) (p : path) (u : string) :
  getInsertTarget b = Some p ->
  exists t i h,
    at_path p b = Some t /\ children t !! i = Some h /\ tag h = "h3" /\
    at_path p (update_at p (injectButton u) b) = Some (injectButton u t) /\
    has_button (injectButton u t) = true.
Proof.
  unfold getInsertTarget, document_querySelector.
  destruct (find_in _ [] b) as [[|i r]|] eqn:E; try discriminate.
  intros H. assert (p = removelast (i :: r)) as -> by congruence. clear H.
  assert (i :: r <> []) as Hne by discriminate.
  rewrite (app_removelast_last 0 Hne) in E.
  destruct (find_in_sound _ _ _ _ E) as (h & anc' & Hh & M).
  destruct (at_path_app _ _ _ _ Hh) as (t & Ht & Hi).
  exists t, (List.last (i :: r) 0), h. repeat split; auto.
  - unfold matches in M. cbn in M. apply andb_true_iff in M. destruct M as [M _].
    symmetry. now apply String.eqb_eq.
  - now apply at_path_update_at.
  - apply has_button_injectButton.
Qed.

Lemma getInsertTarget_is_the_parent_of_a_heading_witness :
  exists t, at_path [0; 0; 0] (update_at [0; 0; 0] (injectButton "u") sample) = Some t /\
            has_button t = true.
Proof.
  destruct (getInsertTarget_is_the_parent_of_a_heading sample [0; 0; 0] "u" eq_refl)
    as (t & _ & _ & _ & _ & _ & H1 & H2).
  exists (injectButton "u" t). split; [exact H1 | exact H2].
Defined.
